(** * Lumina eyewear scraper: field normalizers, crawl loop and catalog merge

    A shallow embedding of [src/scraper.js].

    - Strings are [string]s of bytes, the UTF-8 form of the JavaScript
      string.  [String.prototype.toLowerCase] lowers the ASCII letters
      and the two characters outside ASCII whose lower case holds an
      ASCII letter (U+212A and U+0130); the other characters outside
      ASCII, which JavaScript lowers to characters outside ASCII, are
      kept: no occurrence of an ASCII word depends on them.
    - The identifier counter and the lengths it is advanced by are [Z]:
      JavaScript numbers are exact on the integers a run can reach.
      [parseFloat] and [Math.round] are modelled on the doubles, with the
      rounding to the nearest double written out.
    - The store is modelled up to [JSON.parse]: a file holds garbage or a
      JSON value; what [JSON.stringify] makes of a value that was parsed
      ([stored_form]) is part of the model.
    - The browser driver, the clock and the file system are the
      environment.  What they answer is given by an oracle ([world]);
      what the program changes is a [state], threaded through the code by
      a small state-and-exception monad. *)

From Stdlib Require Import String Ascii List ZArith Bool Lia Sorted.
Import ListNotations.
Local Open Scope string_scope.
Local Open Scope Z_scope.

(** ** JavaScript string primitives *)

Definition lower_char (c : ascii) : ascii :=
  let n := nat_of_ascii c in
  if (Nat.leb 65 n && Nat.leb n 90)%bool then ascii_of_nat (n + 32) else c.

(** [s.toLowerCase()] on the UTF-8 bytes of the string.  Two characters
    outside ASCII have ASCII letters in their lower case: the Kelvin sign
    U+212A (bytes 226 132 170) becomes [k], and U+0130, the capital I
    with a dot (bytes 196 176), becomes [i] followed by the combining dot
    U+0307 (bytes 204 135).  The bytes are read from left to right with
    what may begin one of the two characters held back ([pending]). *)
Inductive pending := Idle | SeenE2 | SeenE2_84 | SeenC4.

Definition pending_bytes (st : pending) : string :=
  match st with
  | Idle => EmptyString
  | SeenE2 => String "226" EmptyString
  | SeenE2_84 => String "226" (String "132" EmptyString)
  | SeenC4 => String "196" EmptyString
  end.

(** A byte read with nothing held back. *)
Definition idle_step (c : ascii) : string * pending :=
  if Ascii.eqb c "226" then (EmptyString, SeenE2)
  else if Ascii.eqb c "196" then (EmptyString, SeenC4)
  else (String (lower_char c) EmptyString, Idle).

(** A byte that does not continue what is held back: the bytes held
    back go out as they are. *)
Definition flush_step (st : pending) (c : ascii) : string * pending :=
  (pending_bytes st ++ fst (idle_step c), snd (idle_step c)).

Definition lower_step (st : pending) (c : ascii) : string * pending :=
  match st with
  | Idle => idle_step c
  | SeenE2 =>
      if Ascii.eqb c "132" then (EmptyString, SeenE2_84) else flush_step st c
  | SeenE2_84 =>
      if Ascii.eqb c "170" then (String "k" EmptyString, Idle)
      else flush_step st c
  | SeenC4 =>
      if Ascii.eqb c "176"
      then (String "i" (String "204" (String "135" EmptyString)), Idle)
      else flush_step st c
  end.

Fixpoint lower_from (st : pending) (s : string) : string :=
  match s with
  | EmptyString => pending_bytes st
  | String c r => fst (lower_step st c) ++ lower_from (snd (lower_step st c)) r
  end.

Definition toLowerCase (s : string) : string := lower_from Idle s.

(** [s.startsWith(p)] *)
Fixpoint startsWith (p s : string) : bool :=
  match p, s with
  | EmptyString, _ => true
  | String a p', String b s' => (Ascii.eqb a b && startsWith p' s')%bool
  | String _ _, EmptyString => false
  end.

(** [s.includes(key)]: [key] occurs at some offset of [s]. *)
Fixpoint includes (key s : string) : bool :=
  (startsWith key s ||
   match s with
   | EmptyString => false
   | String _ r => includes key r
   end)%bool.

(** [/k1|k2|.../.test(text)] for alternatives that are plain words. *)
Definition test_alternatives (words : list string) (text : string) : bool :=
  existsb (fun k => includes k text) words.

(** ** Field normalizers *)

Inductive Shape := round | aviator | square | rect.
Inductive ProductType := Sunglasses | Optical.
Inductive Color := Black | Gold | Silver | Tortoise | Blue.

Definition Shape_name (s : Shape) : string :=
  match s with
  | round => "round" | aviator => "aviator"
  | square => "square" | rect => "rect"
  end.

Definition ProductType_name (t : ProductType) : string :=
  match t with Sunglasses => "Sunglasses" | Optical => "Optical" end.

Definition Color_name (c : Color) : string :=
  match c with
  | Black => "Black" | Gold => "Gold" | Silver => "Silver"
  | Tortoise => "Tortoise" | Blue => "Blue"
  end.

Definition detectShape (name desc : string) : Shape :=
  let text := toLowerCase (name ++ " " ++ desc) in
  if test_alternatives ["round"; "circle"; "circular"] text then round
  else if test_alternatives ["aviator"; "pilot"; "teardrop"] text then aviator
  else if test_alternatives ["square"; "rectangular"; "angular"] text
  then square
  else rect.

Definition type_keywords : list string := ["sun"; "tinted"; "polarized"; "uv"].

Definition detectType (name desc category : string) : ProductType :=
  let text := toLowerCase (name ++ " " ++ desc ++ " " ++ category) in
  if test_alternatives type_keywords text then Sunglasses else Optical.

(** [COLOR_MAP]; [Object.entries] lists its keys in insertion order. *)
Definition COLOR_MAP : list (string * Color) :=
  [ ("black", Black); ("dark", Black);
    ("gold", Gold); ("yellow", Gold);
    ("silver", Silver); ("chrome", Silver); ("gunmetal", Silver);
    ("grey", Silver); ("gray", Silver);
    ("tortoise", Tortoise); ("havana", Tortoise); ("brown", Tortoise);
    ("blue", Blue); ("navy", Blue) ].

(** The [for ... of Object.entries(COLOR_MAP)] loop with its early return. *)
Fixpoint normalizeColor_loop (entries : list (string * Color)) (lower : string)
  : Color :=
  match entries with
  | [] => Black
  | (key, val) :: rest =>
      if includes key lower then val else normalizeColor_loop rest lower
  end.

Definition normalizeColor (raw : string) : Color :=
  let lower := toLowerCase raw in
  normalizeColor_loop COLOR_MAP lower.

Definition COLOR_HEX_MAP (c : Color) : option string :=
  match c with
  | Black => Some "#2C2C2C"
  | Gold => Some "#D4AF37"
  | Silver => Some "#C0C0C0"
  | Tortoise => Some "#5C4033"
  | Blue => Some "#1E3A8A"
  end.

(** ** Prices *)

(** The values [Math.round] returns on what [parseFloat] yields here. *)
Inductive number := NaN | Infinity | Int (z : Z).

(** A non-negative double as [parseFloat] returns it: [FDyadic m e] is
    [m * 2^e]. *)
Inductive float64 := FNaN | FInf | FDyadic (m e : Z).

Definition is_digit (c : ascii) : bool :=
  let n := nat_of_ascii c in (Nat.leb 48 n && Nat.leb n 57)%bool.

Definition digit_value (c : ascii) : Z := Z.of_nat (nat_of_ascii c) - 48.

(** [raw.replace(/,/g, '')] *)
Fixpoint remove_commas (s : string) : string :=
  match s with
  | EmptyString => EmptyString
  | String c r =>
      if Ascii.eqb c "," then remove_commas r else String c (remove_commas r)
  end.

(** The character class [[\d.]]. *)
Definition price_char (c : ascii) : bool :=
  (is_digit c || Ascii.eqb c ".")%bool.

Fixpoint take_while (f : ascii -> bool) (s : string) : string :=
  match s with
  | EmptyString => EmptyString
  | String c r => if f c then String c (take_while f r) else EmptyString
  end.

Fixpoint drop_while (f : ascii -> bool) (s : string) : string :=
  match s with
  | EmptyString => EmptyString
  | String c r => if f c then drop_while f r else s
  end.

(** [s.match(/[\d.]+/)]: the leftmost, longest run of digits and dots;
    [None] is JavaScript's [null]. *)
Fixpoint match_price (s : string) : option string :=
  match s with
  | EmptyString => None
  | String c r =>
      if price_char c then Some (String c (take_while price_char r))
      else match_price r
  end.

(** Value of a digit string, most significant digit first. *)
Fixpoint digits_value (acc : Z) (s : string) : Z :=
  match s with
  | EmptyString => acc
  | String c r => digits_value (10 * acc + digit_value c) r
  end.

(** The nearest double to [n / d] ([0 <= n], [0 < d]), ties to the even
    significand, down to the subnormals and up to the overflow to
    [Infinity]. *)
Definition nearest_double (n d : Z) : float64 :=
  if n =? 0 then FDyadic 0 0 else
  let e1 := Z.log2 n - Z.log2 d - 52 in
  let scaled e := if 0 <=? e then n / (d * 2 ^ e) else (n * 2 ^ (- e)) / d in
  let e2 := if scaled e1 <? 2 ^ 52 then e1 - 1 else e1 in
  let e := Z.max e2 (-1074) in
  let num := if 0 <=? e then n else n * 2 ^ (- e) in
  let den := if 0 <=? e then d * 2 ^ e else d in
  let q := num / den in
  let r := num mod den in
  let m := if 2 * r <? den then q
           else if den <? 2 * r then q + 1
           else if Z.even q then q else q + 1 in
  if (0 <=? e) && (2 ^ 1024 <=? m * 2 ^ e) then FInf else FDyadic m e.

(** [parseFloat] on the strings [match_price] returns (digits and dots
    only: no blank, sign or exponent can occur).  The longest prefix that
    is a decimal literal is read: digits, then optionally a dot and
    digits; a prefix without any digit is not a number. *)
Definition fraction_digits (rest : string) : string :=
  match rest with
  | String "." r => take_while is_digit r
  | _ => EmptyString
  end.

Definition parseFloat (s : string) : float64 :=
  let ip := take_while is_digit s in
  let fp := fraction_digits (drop_while is_digit s) in
  if ((String.length ip =? 0) && (String.length fp =? 0))%nat then FNaN
  else nearest_double (digits_value (digits_value 0 ip) fp)
                      (10 ^ Z.of_nat (String.length fp)).

(** [Math.round]: the nearest integer, the tie going up. *)
Definition Math_round (x : float64) : number :=
  match x with
  | FNaN => NaN
  | FInf => Infinity
  | FDyadic m e =>
      if 0 <=? e then Int (m * 2 ^ e)
      else Int ((2 * m + 2 ^ (- e)) / 2 ^ (1 - e))
  end.

Definition parsePrice (raw : string) : number :=
  match match_price (remove_commas raw) with
  | Some m => Math_round (parseFloat m)
  | None => Int 0
  end.

(** ** Site descriptors, raw item bundles and product records *)

Module Config.

Record selectors := {
  productItem : string;
  name : string;
  price : string;
  color : string;
  imageUrl : string;
  productLink : string;
  description : string
}.

(** [overrides] and each of its two properties may be missing. *)
Record overrides := {
  material : option string;
  weight : option Z
}.

Record config := {
  brand : string;
  enabled : bool;
  urls : list string;
  sel : selectors;
  over : option overrides
}.

End Config.

Definition SCRAPER_CONFIGS : list Config.config :=
  [ {| Config.brand := "ic! berlin";
       Config.enabled := true;
       Config.urls :=
         [ "https://www.ic-berlin.de/en/eyewear/spectacle-frames/";
           "https://www.ic-berlin.de/en/eyewear/sunglasses/" ];
       Config.sel :=
         {| Config.productItem := ".product-item";
            Config.name := ".product-name";
            Config.price := ".price";
            Config.color := ".color-label";
            Config.imageUrl := "img.product-image";
            Config.productLink := "a.product-link";
            Config.description := EmptyString |};
       Config.over :=
         Some {| Config.material := Some "Stainless Steel";
                 Config.weight := Some 14 |} |};
    {| Config.brand := "Orgreen";
       Config.enabled := true;
       Config.urls :=
         [ "https://www.orgreen.com/collections/optical-frames";
           "https://www.orgreen.com/collections/sunglasses" ];
       Config.sel :=
         {| Config.productItem := ".product-card";
            Config.name := ".product-card__title";
            Config.price := ".price__regular .price-item";
            Config.color := ".color-name";
            Config.imageUrl := ".product-card__image img";
            Config.productLink := "a.product-card__link";
            Config.description := EmptyString |};
       Config.over :=
         Some {| Config.material := Some "Titanium";
                 Config.weight := Some 15 |} |};
    {| Config.brand := "Tom Ford";
       Config.enabled := true;
       Config.urls :=
         [ "https://www.tomford.com/eyewear/optical-frames/";
           "https://www.tomford.com/eyewear/sunglasses/" ];
       Config.sel :=
         {| Config.productItem := ".product-tile";
            Config.name := ".product-name";
            Config.price := ".price-sales";
            Config.color := ".color-description";
            Config.imageUrl := ".product-image img";
            Config.productLink := "a.product-tile-link";
            Config.description := EmptyString |};
       Config.over :=
         Some {| Config.material := Some "Acetate";
                 Config.weight := Some 28 |} |};
    {| Config.brand := "Talla";
       Config.enabled := true;
       Config.urls :=
         [ "https://www.tallaeyewear.com/collections/optical";
           "https://www.tallaeyewear.com/collections/sun" ];
       Config.sel :=
         {| Config.productItem := ".product-item";
            Config.name := ".product-item__title";
            Config.price := ".price";
            Config.color := ".product-item__variant";
            Config.imageUrl := ".product-item__image img";
            Config.productLink := "a.product-item__link";
            Config.description := EmptyString |};
       Config.over :=
         Some {| Config.material := Some "Titanium";
                 Config.weight := Some 18 |} |} ].

(** What the in-page extractor returns for one product container: five
    strings, each possibly empty. *)
Module Item.
Record item := {
  rawName : string;
  rawPrice : string;
  rawColor : string;
  imageUrl : string;
  productUrl : string
}.
End Item.

Module Product.
Record product := {
  id : Z;
  brand : string;
  name : string;
  type : ProductType;
  color : Color;
  price : number;
  shape : Shape;
  imageColor : string;
  imageUrl : string;
  material : string;
  weight : Z;
  sourceUrl : string;
  scrapedAt : string
}.
End Product.

(** ** The persisted store *)

#[local] Set Warnings "-register-all".

(** A value read back by [JSON.parse]; the properties of an object are
    listed in the object's own order.  A number is a double: [JNum n] is
    the finite number of integer value [n], [JFrac m e] a finite number
    [m * 2^e] that is no integer, [JInf] what a literal beyond the
    doubles such as [1e999] is read as ([Infinity], or [-Infinity] when
    [negative]), and [JNegZero] what [-0] is read as. *)
Inductive json :=
| JNull
| JBool (b : bool)
| JNum (n : Z)
| JStr (s : string)
| JArr (elements : list json)
| JObj (props : list (string * json))
| JFrac (m e : Z)
| JInf (negative : bool)
| JNegZero.

(** The text of a file, up to what [JSON.parse] makes of it. *)
Inductive text :=
| Garbage
| Json (v : json).

(** [products.json] on disk. *)
Inductive cache_file :=
| Absent
| Unreadable
| Contents (t : text).

(** An element of the merged catalog: an object parsed from the old store,
    or a product built by this run. *)
Inductive entry :=
| Existing (p : json)
| Fresh (p : Product.product).

(** [JSON.stringify] writes a number that is not finite as [null]. *)
Definition number_json (n : number) : json :=
  match n with
  | Int z => JNum z
  | NaN | Infinity => JNull
  end.

Definition product_json (p : Product.product) : json :=
  JObj [ ("id", JNum (Product.id p));
         ("brand", JStr (Product.brand p));
         ("name", JStr (Product.name p));
         ("type", JStr (ProductType_name (Product.type p)));
         ("color", JStr (Color_name (Product.color p)));
         ("price", number_json (Product.price p));
         ("shape", JStr (Shape_name (Product.shape p)));
         ("imageColor", JStr (Product.imageColor p));
         ("imageUrl", JStr (Product.imageUrl p));
         ("material", JStr (Product.material p));
         ("weight", JNum (Product.weight p));
         ("sourceUrl", JStr (Product.sourceUrl p));
         ("scrapedAt", JStr (Product.scrapedAt p)) ].

(** What [JSON.parse] reads back from what [JSON.stringify] writes for a
    value that was parsed: a number that is not finite is written as
    [null] and the negative zero as [0], at any depth; everything else
    is written as it is. *)
Fixpoint stored_form (v : json) : json :=
  match v with
  | JInf _ => JNull
  | JNegZero => JNum 0
  | JArr elements => JArr (map stored_form elements)
  | JObj props =>
      JObj (map (fun kv : string * json =>
                   let (k, x) := kv in (k, stored_form x)) props)
  | _ => v
  end.

Definition entry_json (e : entry) : json :=
  match e with
  | Existing p => stored_form p
  | Fresh p => product_json p
  end.

(** [JSON.stringify(merged, null, 2)] *)
Definition JSON_stringify (merged : list entry) : text :=
  Json (JArr (map entry_json merged)).

(** [obj[key]] on the property list of an object; [None] is [undefined]. *)
Fixpoint get_prop (key : string) (props : list (string * json)) : option json :=
  match props with
  | [] => None
  | (k, v) :: rest => if String.eqb k key then Some v else get_prop key rest
  end.

(** ** The environment *)

Inductive exn := TypeError | SyntaxError | FsError | DriverError.

Inductive result (A : Type) :=
| Ok (a : A)
| Throw (e : exn).
Arguments Ok {A} a.
Arguments Throw {A} e.

(** The awaited driver calls of the [try] block, in order. *)
Inductive stage := Goto | Settle | Scroll | LazyWait | Extract.

(** What happens inside the [try] block on one page: one of the driver
    calls rejects (a navigation time-out is [Fails Goto]), or the
    extractor returns its raw item bundles. *)
Inductive attempt :=
| Fails (at_stage : stage)
| Extracted (items : list Item.item).

(** What the driver does with one [browser.newPage()]: the call rejects,
    or a page is opened that behaves as [body] and whose [close()]
    returns ([closes = true]) or rejects. *)
Inductive page_visit :=
| NewPageThrows
| Page (body : attempt) (closes : bool).

(** One run's environment.  [visit n url] is the [n]-th page opened in the
    run, asked for [url]; [clock n] is the [n]-th reading of
    [new Date().toISOString()]; [write_failure = Some f] makes
    [writeFileSync] throw, leaving [f] on disk. *)
Record world := {
  launches : bool;
  visit : nat -> string -> page_visit;
  clock : nat -> string;
  browser_closes : bool;
  write_failure : option cache_file
}.

Record state := {
  visits : nat;
  ticks : nat;
  open_pages : nat;
  file : cache_file
}.

Definition M (A : Type) : Type := state -> result A * state.

Definition ret {A} (a : A) : M A := fun s => (Ok a, s).

Definition throw {A} (e : exn) : M A := fun s => (Throw e, s).

Definition bind {A B} (c : M A) (k : A -> M B) : M B :=
  fun s =>
    match c s with
    | (Ok a, s1) => k a s1
    | (Throw e, s1) => (Throw e, s1)
    end.

Notation "x <- c ;; k" := (bind c (fun x => k))
  (at level 61, c at next level, right associativity).
Notation "c ;;; k" := (bind c (fun _ => k))
  (at level 61, right associativity).

(** [try { body } catch (err) { handler }] *)
Definition try_catch {A} (body : M A) (handler : exn -> M A) : M A :=
  fun s =>
    match body s with
    | (Ok a, s1) => (Ok a, s1)
    | (Throw e, s1) => handler e s1
    end.

(** [try { body } catch (err) { handler } finally { final }]: [final] runs
    on both paths, and an exception of [final] replaces the outcome. *)
Definition try_catch_finally {A} (body : M A) (handler : exn -> M A)
  (final : M unit) : M A :=
  fun s =>
    let (r, s1) := try_catch body handler s in
    match final s1 with
    | (Ok _, s2) => (r, s2)
    | (Throw e, s2) => (Throw e, s2)
    end.

(** *** The file system *)

(** [fs.existsSync(CACHE_FILE)] *)
Definition existsSync : M bool :=
  fun s => (Ok (match file s with Absent => false | _ => true end), s).

(** [fs.readFileSync(CACHE_FILE, 'utf8')] *)
Definition readFileSync : M text :=
  fun s =>
    match file s with
    | Contents t => (Ok t, s)
    | Absent | Unreadable => (Throw FsError, s)
    end.

Definition JSON_parse (t : text) : M json :=
  match t with
  | Json v => ret v
  | Garbage => throw SyntaxError
  end.

Definition set_file (f : cache_file) (s : state) : state :=
  {| visits := visits s; ticks := ticks s; open_pages := open_pages s;
     file := f |}.

(** [fs.writeFileSync(CACHE_FILE, t)] *)
Definition writeFileSync (w : world) (t : text) : M unit :=
  fun s =>
    match write_failure w with
    | None => (Ok tt, set_file (Contents t) s)
    | Some remains => (Throw FsError, set_file remains s)
    end.

(** *** The browser driver and the clock *)

Record page := {
  page_body : attempt;
  page_closes : bool
}.

(** [chromium.launch({ headless: true })] *)
Definition launch (w : world) : M unit :=
  if launches w then ret tt else throw DriverError.

(** [browser.close()] *)
Definition browser_close (w : world) : M unit :=
  if browser_closes w then ret tt else throw DriverError.

(** [browser.newPage()], called to visit [url]. *)
Definition newPage (w : world) (url : string) : M page :=
  fun s =>
    match visit w (visits s) url with
    | NewPageThrows =>
        (Throw DriverError,
         {| visits := S (visits s); ticks := ticks s;
            open_pages := open_pages s; file := file s |})
    | Page body closes =>
        (Ok {| page_body := body; page_closes := closes |},
         {| visits := S (visits s); ticks := ticks s;
            open_pages := S (open_pages s); file := file s |})
    end.

(** [page.close()] *)
Definition page_close (p : page) : M unit :=
  fun s =>
    if page_closes p
    then (Ok tt,
          {| visits := visits s; ticks := ticks s;
             open_pages := Nat.pred (open_pages s); file := file s |})
    else (Throw DriverError, s).

Definition stage_eqb (a b : stage) : bool :=
  match a, b with
  | Goto, Goto | Settle, Settle | Scroll, Scroll
  | LazyWait, LazyWait | Extract, Extract => true
  | _, _ => false
  end.

(** An awaited driver call of the [try] block that returns nothing:
    [page.goto], the two [page.waitForTimeout] and the scrolling
    [page.evaluate]. *)
Definition driver_call (p : page) (st : stage) : M unit :=
  match page_body p with
  | Fails st' => if stage_eqb st st' then throw DriverError else ret tt
  | Extracted _ => ret tt
  end.

(** The [page.evaluate] that runs the extractor with [config.selectors]. *)
Definition evaluate_items (p : page) : M (list Item.item) :=
  match page_body p with
  | Fails _ => throw DriverError
  | Extracted items => ret items
  end.

(** [new Date().toISOString()] *)
Definition now (w : world) : M string :=
  fun s =>
    (Ok (clock w (ticks s)),
     {| visits := visits s; ticks := S (ticks s);
        open_pages := open_pages s; file := file s |}).

(** ** The crawl *)

(** Truthiness of a string and of a number. *)
Definition truthy (s : string) : bool := negb (String.eqb s EmptyString).

(** [s || d] on strings. *)
Definition or_else (s d : string) : string := if truthy s then s else d.

(** [price || 0] *)
Definition or_zero (n : number) : number :=
  match n with
  | NaN => Int 0
  | Infinity => Infinity
  | Int z => if z =? 0 then Int 0 else Int z
  end.

(** The image URL of lines 248-249. *)
Definition resolve_image (raw : string) : string :=
  let imageUrl := or_else raw EmptyString in
  if (truthy imageUrl && startsWith "//" imageUrl)%bool
  then "https:" ++ imageUrl else imageUrl.

(** [config.overrides?.material || 'Unknown'] *)
Definition config_material (config : Config.config) : string :=
  match Config.over config with
  | Some o =>
      match Config.material o with
      | Some m => or_else m "Unknown"
      | None => "Unknown"
      end
  | None => "Unknown"
  end.

(** [config.overrides?.weight || 0] *)
Definition config_weight (config : Config.config) : Z :=
  match Config.over config with
  | Some o => match Config.weight o with Some n => n | None => 0 end
  | None => 0
  end.

(** The product literal of lines 241-265, for an item whose name is not
    empty, with the counter's value [idCounter] and the time [stamp]. *)
Definition make_product (config : Config.config) (url : string)
  (item : Item.item) (idCounter : Z) (stamp : string) : Product.product :=
  let color :=
    if truthy (Item.rawColor item) then normalizeColor (Item.rawColor item)
    else Black in
  let type := detectType (Item.rawName item) EmptyString url in
  let shape := detectShape (Item.rawName item) EmptyString in
  let price := parsePrice (Item.rawPrice item) in
  let imageColor :=
    match COLOR_HEX_MAP color with
    | Some hex => or_else hex "#2C2C2C"
    | None => "#2C2C2C"
    end in
  let imageUrl := resolve_image (Item.imageUrl item) in
  {| Product.id := idCounter;
     Product.brand := Config.brand config;
     Product.name := Item.rawName item;
     Product.type := type;
     Product.color := color;
     Product.price := or_zero price;
     Product.shape := shape;
     Product.imageColor := imageColor;
     Product.imageUrl := imageUrl;
     Product.material := config_material config;
     Product.weight := config_weight config;
     Product.sourceUrl := or_else (Item.productUrl item) url;
     Product.scrapedAt := stamp |}.

(** The loop [for (const item of items)] of one page; [products] and
    [idCounter] are the two variables it updates. *)
Fixpoint scrape_items (w : world) (config : Config.config) (url : string)
  (items : list Item.item) (products : list Product.product) (idCounter : Z)
  : M (list Product.product * Z) :=
  match items with
  | [] => ret (products, idCounter)
  | item :: rest =>
      if negb (truthy (Item.rawName item))
      then scrape_items w config url rest products idCounter
      else
        stamp <- now w ;;
        let product := make_product config url item idCounter stamp in
        scrape_items w config url rest (products ++ [product])%list
          (idCounter + 1)
  end.

(** The body of the [try] block for one page. *)
Definition scrape_page (w : world) (config : Config.config) (url : string)
  (p : page) (products : list Product.product) (idCounter : Z)
  : M (list Product.product * Z) :=
  driver_call p Goto ;;;
  driver_call p Settle ;;;
  driver_call p Scroll ;;;
  driver_call p LazyWait ;;;
  items <- evaluate_items p ;;
  scrape_items w config url items products idCounter.

(** The loop [for (const url of config.urls)]. *)
Fixpoint scrape_urls (w : world) (config : Config.config) (urls : list string)
  (products : list Product.product) (idCounter : Z)
  : M (list Product.product) :=
  match urls with
  | [] => ret products
  | url :: rest =>
      p <- newPage w url ;;
      r <- try_catch_finally
             (scrape_page w config url p products idCounter)
             (fun _ => ret (products, idCounter))
             (page_close p) ;;
      scrape_urls w config rest (fst r) (snd r)
  end.

Definition scrapeConfig (w : world) (config : Config.config) (startId : Z)
  : M (list Product.product) :=
  scrape_urls w config (Config.urls config) [] startId.

(** ** The run and the store *)

(** [p.manual === true], as the callback of [filter] evaluates it:
    reading a property of [null] throws, any other value that is not an
    object has no such property. *)
Definition manual_is_true (p : json) : M bool :=
  match p with
  | JNull => throw TypeError
  | JObj props =>
      ret (match get_prop "manual" props with
           | Some (JBool true) => true
           | _ => false
           end)
  | _ => ret false
  end.

Fixpoint filter_manual (elements : list json) : M (list json) :=
  match elements with
  | [] => ret []
  | p :: rest =>
      keep <- manual_is_true p ;;
      kept <- filter_manual rest ;;
      ret (if keep then p :: kept else kept)
  end.

(** [raw.filter(p => p.manual === true)]: only an array has [filter]. *)
Definition raw_filter_manual (raw : json) : M (list json) :=
  match raw with
  | JArr elements => filter_manual elements
  | _ => throw TypeError
  end.

(** Lines 289-296: the manual records to keep. *)
Definition load_existing : M (list json) :=
  present <- existsSync ;;
  if present
  then try_catch (t <- readFileSync ;;
                  raw <- JSON_parse t ;;
                  raw_filter_manual raw)
                 (fun _ => ret [])
  else ret [].

(** The loop [for (const config of SCRAPER_CONFIGS)]. *)
Fixpoint scrape_configs (w : world) (configs : list Config.config)
  (allScraped : list Product.product) (idCounter : Z)
  : M (list Product.product * Z) :=
  match configs with
  | [] => ret (allScraped, idCounter)
  | config :: rest =>
      if negb (Config.enabled config)
      then scrape_configs w rest allScraped idCounter
      else
        products <- scrapeConfig w config idCounter ;;
        scrape_configs w rest (allScraped ++ products)%list
          (idCounter + Z.of_nat (length products) + 10)
  end.

(** Lines 315-320: merge, write, return. *)
Definition merge_and_write (w : world) (existing : list json)
  (allScraped : list Product.product) : M (list entry) :=
  let merged := (map Existing existing ++ map Fresh allScraped)%list in
  writeFileSync w (JSON_stringify merged) ;;;
  ret merged.

(** [runScraper], over the configuration list [configs]
    ([SCRAPER_CONFIGS] in the source). *)
Definition runScraper (w : world) (configs : list Config.config)
  : M (list entry) :=
  existing <- load_existing ;;
  launch w ;;;
  scraped <- scrape_configs w configs [] 1000 ;;
  browser_close w ;;;
  merge_and_write w existing (fst scraped).

(** The reconciliation of a run, with the scraped list as its input: the
    load of lines 289-296 and the merge of lines 315-320. *)
Definition reconcile (w : world) (allScraped : list Product.product)
  : M (list entry) :=
  existing <- load_existing ;;
  merge_and_write w existing allScraped.

Definition loadCachedProducts : M json :=
  present <- existsSync ;;
  if negb present then ret (JArr [])
  else try_catch (t <- readFileSync ;; JSON_parse t)
                 (fun _ => ret (JArr [])).

(** The state a run starts in, with [f] on disk. *)
Definition start (f : cache_file) : state :=
  {| visits := 0%nat; ticks := 0%nat; open_pages := 0%nat; file := f |}.

(** ** Notions the statements use *)

(** [key] occurs in [s]. *)
Definition Contains (key s : string) : Prop :=
  exists a b, s = a ++ key ++ b.


(** The word has no blank in it. *)
Fixpoint no_blank (k : string) : bool :=
  match k with
  | EmptyString => true
  | String c r => (negb (Ascii.eqb c " ") && no_blank r)%bool
  end.

(** An absolute URL starts with a scheme: a letter, then letters, digits,
    [+], [-] or [.], then a colon. *)
Definition is_alpha (c : ascii) : bool :=
  let n := nat_of_ascii c in
  ((Nat.leb 65 n && Nat.leb n 90) || (Nat.leb 97 n && Nat.leb n 122))%bool.

Fixpoint scheme_rest (s : string) : bool :=
  match s with
  | EmptyString => false
  | String c r =>
      if Ascii.eqb c ":" then true
      else ((is_alpha c || is_digit c || Ascii.eqb c "+" || Ascii.eqb c "-"
             || Ascii.eqb c ".") && scheme_rest r)%bool
  end.

Definition is_absolute_url (s : string) : bool :=
  match s with
  | EmptyString => false
  | String c r => (is_alpha c && scheme_rest r)%bool
  end.

(** A non-negative integer, as a price is meant to be. *)
Definition nonneg_integer (n : number) : Prop :=
  exists z, n = Int z /\ 0 <= z.

(** The products one page adds, with the counter at [idCounter] and the
    clock read [tick] times before. *)
Fixpoint page_products (w : world) (config : Config.config) (url : string)
  (items : list Item.item) (idCounter : Z) (tick : nat)
  : list Product.product :=
  match items with
  | [] => []
  | item :: rest =>
      if negb (truthy (Item.rawName item))
      then page_products w config url rest idCounter tick
      else make_product config url item idCounter (clock w tick)
           :: page_products w config url rest (idCounter + 1) (S tick)
  end.

(** [p] was built on the listing page [url] of [config]. *)
Definition from_page (config : Config.config) (url : string)
  (p : Product.product) : Prop :=
  exists item idCounter stamp,
    truthy (Item.rawName item) = true /\
    p = make_product config url item idCounter stamp.

(** The record is an object whose [manual] property is [true]. *)
Definition has_manual_true (p : json) : bool :=
  match p with
  | JObj props =>
      match get_prop "manual" props with
      | Some (JBool true) => true
      | _ => false
      end
  | _ => false
  end.

(** The value holds no number that is not finite and no negative zero,
    at any depth: [JSON.stringify] writes it as it was read. *)
Fixpoint finite_numbers (v : json) : bool :=
  match v with
  | JInf _ => false
  | JNegZero => false
  | JArr elements => forallb finite_numbers elements
  | JObj props =>
      forallb (fun kv : string * json =>
                 let (_, x) := kv in finite_numbers x) props
  | _ => true
  end.

(** The elements of the store when it holds an array. *)
Definition elements_of (f : cache_file) : list json :=
  match f with
  | Contents (Json (JArr elements)) => elements
  | _ => []
  end.

(** What [filter] returns, [None] when its callback throws. *)
Fixpoint kept_manual (elements : list json) : option (list json) :=
  match elements with
  | [] => Some []
  | JNull :: _ => None
  | p :: rest =>
      match kept_manual rest with
      | Some kept => Some (if has_manual_true p then p :: kept else kept)
      | None => None
      end
  end.

(** The value of [existing] after lines 289-296, by the file on disk. *)
Definition existing_of (f : cache_file) : list json :=
  match f with
  | Contents (Json (JArr elements)) =>
      match kept_manual elements with
      | Some kept => kept
      | None => []
      end
  | _ => []
  end.

(** The [id] of a catalog entry; [None] is [undefined]. *)
Definition entry_id (e : entry) : option json :=
  match e with
  | Existing (JObj props) => get_prop "id" props
  | Existing _ => None
  | Fresh p => Some (JNum (Product.id p))
  end.

(** No two records of the catalog share an [id]. *)
Definition unique_ids (catalog : list entry) : Prop :=
  NoDup (map entry_id catalog).

(** The identifier is a number below the offset scraped ones start at. *)
Definition id_below_offset (p : json) : Prop :=
  exists z, entry_id (Existing p) = Some (JNum z) /\ z < 1000.

(** [z; z+1; ...; z+n-1] *)
Fixpoint zseq (z : Z) (n : nat) : list Z :=
  match n with
  | O => []
  | S n' => z :: zseq (z + 1) n'
  end.

(** The identifiers of [products] increase strictly and lie in
    [lo, hi). *)
Definition fresh_ids (lo hi : Z) (products : list Product.product) : Prop :=
  StronglySorted Z.lt (map Product.id products) /\
  Forall (fun i => lo <= i < hi) (map Product.id products).

(** [p] was built on a listing page of an enabled descriptor. *)
Definition from_configs (configs : list Config.config)
  (p : Product.product) : Prop :=
  exists config url,
    In config configs /\ Config.enabled config = true /\
    In url (Config.urls config) /\ from_page config url p.

Definition bump (v t : nat) (s : state) : state :=
  {| visits := (v + visits s)%nat; ticks := (t + ticks s)%nat;
     open_pages := open_pages s; file := file s |}.

(** The driver's life-cycle calls and the final write succeed; what
    happens inside each page's [try] block is left free. *)
Definition healthy (w : world) : Prop :=
  launches w = true /\
  (forall n url, exists body, visit w n url = Page body true) /\
  browser_closes w = true /\
  write_failure w = None.

(** The store [f'] is what a sequence of completed runs makes of [f]. *)
Inductive after_runs (configs : list Config.config)
  : cache_file -> cache_file -> Prop :=
| runs_none f : after_runs configs f f
| runs_more f w s merged s' f' :
    file s = f ->
    runScraper w configs s = (Ok merged, s') ->
    after_runs configs (file s') f' ->
    after_runs configs f f'.

(** ** Sample environments *)

Definition sample_item : Item.item :=
  {| Item.rawName := "Classic Aviator";
     Item.rawPrice := "Rs. 1,500";
     Item.rawColor := "Gunmetal Grey";
     Item.imageUrl := "/media/aviator.jpg";
     Item.productUrl := EmptyString |}.

Definition sample_stamp : string := "2024-05-01T10:00:00.000Z".

(** Every page fails to load but the [k]-th opened, which lists
    [sample_item]. *)
Definition sample_world (k : nat) : world :=
  {| launches := true;
     visit := fun n _ =>
       if Nat.eqb n k then Page (Extracted [sample_item]) true
       else Page (Fails Goto) true;
     clock := fun _ => sample_stamp;
     browser_closes := true;
     write_failure := None |}.

Definition sample_config : Config.config :=
  {| Config.brand := "Talla";
     Config.enabled := true;
     Config.urls :=
       [ "https://www.tallaeyewear.com/collections/optical";
         "https://www.tallaeyewear.com/collections/sun" ];
     Config.sel :=
       {| Config.productItem := ".product-item";
          Config.name := ".product-item__title";
          Config.price := ".price";
          Config.color := ".product-item__variant";
          Config.imageUrl := ".product-item__image img";
          Config.productLink := "a.product-item__link";
          Config.description := EmptyString |};
     Config.over :=
       Some {| Config.material := Some "Titanium";
               Config.weight := Some 18 |} |}.

Definition disabled (config : Config.config) : Config.config :=
  {| Config.brand := Config.brand config;
     Config.enabled := false;
     Config.urls := Config.urls config;
     Config.sel := Config.sel config;
     Config.over := Config.over config |}.

(** A hand-made record whose identifier is the first scraped one. *)
Definition manual_record : json :=
  JObj [ ("id", JNum 1000); ("brand", JStr "Atelier");
         ("name", JStr "Hand-made frame"); ("manual", JBool true) ].

(** A hand-made record with an identifier below the offset. *)
Definition manual_record_7 : json :=
  JObj [ ("id", JNum 7); ("brand", JStr "Atelier");
         ("name", JStr "Hand-made frame"); ("manual", JBool true) ].

(** A hand-made record whose weight was written as [1e999]. *)
Definition manual_record_heavy : json :=
  JObj [ ("id", JNum 8); ("name", JStr "Cast-iron frame");
         ("weight", JInf false); ("manual", JBool true) ].

(** The record the run over [sample_world 0] and [[sample_config]]
    builds, as an earlier run would have left it in the store. *)
Definition stale_record : json :=
  product_json
    (make_product sample_config
       "https://www.tallaeyewear.com/collections/optical"
       sample_item 1000 sample_stamp).

Definition store_of (elements : list json) : cache_file :=
  Contents (Json (JArr elements)).

(** ** Notions the further properties use *)

(** The three keyword groups of [detectShape]. *)
Definition round_words : list string := ["round"; "circle"; "circular"].
Definition aviator_words : list string := ["aviator"; "pilot"; "teardrop"].
Definition square_words : list string :=
  ["square"; "rectangular"; "angular"].

(** The text holds one of [words], in any letter case. *)
Definition mentions (words : list string) (s : string) : Prop :=
  exists k, In k words /\ Contains k (toLowerCase s).

(** Some character of the string is a digit or a dot. *)
Fixpoint has_price_char (s : string) : bool :=
  match s with
  | EmptyString => false
  | String c r => (price_char c || has_price_char r)%bool
  end.

(** The first character of the string, if any, satisfies [f]. *)
Definition first_is (f : ascii -> bool) (s : string) : bool :=
  match s with
  | EmptyString => false
  | String c _ => f c
  end.

(** The string is made of digits only. *)
Fixpoint all_digits (s : string) : bool :=
  match s with
  | EmptyString => true
  | String c r => (is_digit c && all_digits r)%bool
  end.

(** The elements of a catalog that this run built. *)
Fixpoint fresh_of (catalog : list entry) : list Product.product :=
  match catalog with
  | [] => []
  | Fresh p :: rest => p :: fresh_of rest
  | Existing _ :: rest => fresh_of rest
  end.

(** The string does not start with a byte that continues one of the two
    characters [toLowerCase] rewrites (132, 170 or 176). *)
Definition safe_head (z : string) : bool :=
  match z with
  | EmptyString => true
  | String d _ =>
      negb (Ascii.eqb d "132" || Ascii.eqb d "170" || Ascii.eqb d "176")
  end.

(** The computation neither reads nor writes the file: with another
    file on disk it does the same and leaves that file. *)
Definition file_blind {A : Type} (c : M A) : Prop :=
  forall f s, c (set_file f s) = (fst (c s), set_file f (snd (c s))).

(** * Properties *)

Local Open Scope list_scope.

(** ** Strings *)

Lemma startsWith_spec (p s : string) :
  startsWith p s = true <-> exists b, s = (p ++ b)%string.
Proof.
  revert s. induction p as [|a p IH]; intros s; simpl.
  - split; [intros _; now exists s | reflexivity].
  - destruct s as [|c s].
    + split; [discriminate | intros [b Hb]; discriminate].
    + rewrite andb_true_iff, Ascii.eqb_eq, IH. split.
      * intros [-> [b ->]]. now exists b.
      * intros [b Hb]. injection Hb as -> ->.
        split; [reflexivity | now exists b].
Qed.

Lemma includes_spec (key s : string) :
  includes key s = true <-> Contains key s.
Proof.
  unfold Contains. induction s as [|c s IH].
  - simpl. rewrite orb_false_r, startsWith_spec. split.
    + intros [b Hb]. now exists EmptyString, b.
    + intros [a [b Hab]]. destruct a; [now exists b | discriminate].
  - cbn [includes]. rewrite orb_true_iff, startsWith_spec, IH. split.
    + intros [[b Hb] | [a [b Hab]]].
      * now exists EmptyString, b.
      * exists (String c a), b. simpl. now rewrite Hab.
    + intros [a [b Hab]]. destruct a as [|c' a].
      * left. now exists b.
      * right. injection Hab as _ Hab. now exists a, b.
Qed.

Lemma test_alternatives_spec (words : list string) (text : string) :
  test_alternatives words text = true <->
  exists k, In k words /\ Contains k text.
Proof.
  unfold test_alternatives. rewrite existsb_exists.
  split; intros [k [Hk Hc]]; exists k; split; trivial;
    now apply includes_spec.
Qed.

Lemma append_assoc (a b c : string) :
  ((a ++ b) ++ c = a ++ (b ++ c))%string.
Proof. induction a as [|x a IH]; cbn [append]; [reflexivity | now rewrite IH]. Qed.

Lemma append_empty (a : string) : (a ++ EmptyString = a)%string.
Proof. induction a as [|x a IH]; cbn [append]; [reflexivity | now rewrite IH]. Qed.

(** A blank ends whatever is held back: the text is lowered on both
    sides of it. *)
Lemma lower_from_blank (st : pending) (a b : string) :
  lower_from st (a ++ String " " b) =
  (lower_from st a ++ String " " (lower_from Idle b))%string.
Proof.
  revert st. induction a as [|c a IH]; intros st.
  - destruct st; reflexivity.
  - cbn [append lower_from]. now rewrite IH, append_assoc.
Qed.

Lemma toLowerCase_blank (a b : string) :
  toLowerCase (a ++ String " " b) =
  (toLowerCase a ++ String " " (toLowerCase b))%string.
Proof. apply lower_from_blank. Qed.

Lemma startsWith_before_blank (k x y : string) :
  no_blank k = true ->
  startsWith k (x ++ String " " y) = startsWith k x.
Proof.
  revert x. induction k as [|a k IH]; intros x Hk; [reflexivity|].
  simpl in Hk. apply andb_true_iff in Hk as [Ha Hk].
  destruct x as [|c x]; simpl.
  - apply negb_true_iff in Ha. now rewrite Ha.
  - now rewrite IH.
Qed.

(** An occurrence of a word without blanks does not straddle a blank. *)
Lemma includes_across_blank (k x y : string) :
  no_blank k = true ->
  includes k (x ++ String " " y) = (includes k x || includes k y)%bool.
Proof.
  intros Hk. induction x as [|c x IH].
  - pose proof (startsWith_before_blank k EmptyString y Hk) as H.
    simpl in H. cbn [includes append]. rewrite H, orb_false_r. reflexivity.
  - pose proof (startsWith_before_blank k (String c x) y Hk) as H.
    simpl append in H. cbn [includes append]. cbn [includes append] in IH.
    rewrite H, IH, orb_assoc. reflexivity.
Qed.



Lemma detectType_cases (name desc category : string) :
  detectType name desc category = Sunglasses \/
  detectType name desc category = Optical.
Proof. unfold detectType. destruct (test_alternatives _ _); auto. Qed.

(** ** Colors *)

Lemma normalizeColor_loop_found (lower : string) (pre : list (string * Color))
  (key : string) (val : Color) (post : list (string * Color)) :
  (forall k v, In (k, v) pre -> includes k lower = false) ->
  includes key lower = true ->
  normalizeColor_loop (pre ++ (key, val) :: post) lower = val.
Proof.
  induction pre as [|[k v] pre IH]; intros Hpre Hkey; simpl.
  - now rewrite Hkey.
  - rewrite (Hpre k v (or_introl eq_refl)).
    apply IH; trivial. intros k' v' Hin. apply (Hpre k' v'). now right.
Qed.

Lemma normalizeColor_loop_fallback (lower : string)
  (entries : list (string * Color)) :
  (forall k v, In (k, v) entries -> includes k lower = false) ->
  normalizeColor_loop entries lower = Black.
Proof.
  induction entries as [|[k v] entries IH]; intros H; simpl; [reflexivity|].
  rewrite (H k v (or_introl eq_refl)). apply IH.
  intros k' v' Hin. apply (H k' v'). now right.
Qed.

Lemma not_Contains_includes (key s : string) :
  ~ Contains key s -> includes key s = false.
Proof.
  intros H. destruct (includes key s) eqn:E; [|reflexivity].
  exfalso. apply H. now apply includes_spec.
Qed.

(** C4.  [normalizeColor] lower-cases its input and returns the color of
    the first key of the ordered table that occurs in the lowered input,
    [Black] when none does; the keys come in the order black, dark, gold,
    yellow, silver, chrome, gunmetal, grey, gray, tortoise, havana, brown,
    blue, navy, and ["Gunmetal Grey"] is [Silver]. *)
Theorem normalizeColor_first_key (raw : string) :
  (forall pre key val post,
      COLOR_MAP = pre ++ (key, val) :: post ->
      (forall k v, In (k, v) pre -> ~ Contains k (toLowerCase raw)) ->
      Contains key (toLowerCase raw) ->
      normalizeColor raw = val) /\
  ((forall k v, In (k, v) COLOR_MAP -> ~ Contains k (toLowerCase raw)) ->
   normalizeColor raw = Black) /\
  map fst COLOR_MAP =
    ["black"; "dark"; "gold"; "yellow"; "silver"; "chrome"; "gunmetal";
     "grey"; "gray"; "tortoise"; "havana"; "brown"; "blue"; "navy"]%string /\
  normalizeColor "Gunmetal Grey" = Silver.
Proof.
  unfold normalizeColor. repeat split.
  - intros pre key val post Hmap Hpre Hkey. rewrite Hmap.
    apply normalizeColor_loop_found.
    + intros k v Hin. apply not_Contains_includes. now apply (Hpre k v).
    + now apply includes_spec.
  - intros Hnone. apply normalizeColor_loop_fallback.
    intros k v Hin. apply not_Contains_includes. now apply (Hnone k v).
Qed.

(** ** Prices *)

Lemma digit_value_nonneg (c : ascii) : is_digit c = true -> 0 <= digit_value c.
Proof.
  unfold is_digit, digit_value. intros H.
  apply andb_true_iff in H as [H _]. apply Nat.leb_le in H. lia.
Qed.

Lemma digits_value_nonneg (s : string) (acc : Z) :
  0 <= acc -> 0 <= digits_value acc (take_while is_digit s).
Proof.
  revert acc. induction s as [|c s IH]; intros acc Hacc;
    cbn [take_while digits_value]; [lia|].
  destruct (is_digit c) eqn:E; cbn [digits_value]; [|lia].
  apply IH. pose proof (digit_value_nonneg c E). lia.
Qed.

Lemma fraction_digits_take (rest : string) :
  exists r, fraction_digits rest = take_while is_digit r.
Proof.
  destruct rest as [|c rest]; [now exists EmptyString|].
  destruct (Ascii.eqb_spec c ".") as [-> | Hc]; [now exists rest|].
  exists EmptyString. unfold fraction_digits.
  destruct c as [[] [] [] [] [] [] [] []]; try reflexivity. now elim Hc.
Qed.

Lemma nearest_double_nonneg (n d : Z) :
  0 <= n -> 0 < d ->
  nearest_double n d = FInf \/
  exists m e, nearest_double n d = FDyadic m e /\ 0 <= m.
Proof.
  intros Hn Hd. unfold nearest_double.
  destruct (n =? 0); [right; exists 0, 0; split; [reflexivity | lia]|].
  match goal with |- context [Z.max ?a ?b] => set (e := Z.max a b) end.
  set (num := if 0 <=? e then n else n * 2 ^ (- e)).
  set (den := if 0 <=? e then d * 2 ^ e else d).
  assert (Hnum : 0 <= num).
  { unfold num. destruct (0 <=? e); [lia|].
    apply Z.mul_nonneg_nonneg; [lia | apply Z.pow_nonneg; lia]. }
  assert (Hden : 0 < den).
  { unfold den. destruct (0 <=? e) eqn:E; [|lia].
    apply Z.leb_le in E. apply Z.mul_pos_pos; [lia|].
    apply Z.pow_pos_nonneg; lia. }
  assert (Hq : 0 <= num / den) by (apply Z.div_pos; lia).
  match goal with |- context [if ?c then FInf else _] => destruct c end;
    [now left | right].
  eexists _, e. split; [reflexivity|].
  destruct (2 * (num mod den) <? den); [lia|].
  destruct (den <? 2 * (num mod den)); [lia|].
  destruct (Z.even (num / den)); lia.
Qed.

Lemma Math_round_nonneg (m e : Z) :
  0 <= m -> nonneg_integer (Math_round (FDyadic m e)).
Proof.
  intros Hm. unfold Math_round, nonneg_integer.
  destruct (0 <=? e) eqn:E; eexists; (split; [reflexivity|]).
  - apply Z.leb_le in E. apply Z.mul_nonneg_nonneg; [lia|].
    apply Z.pow_nonneg; lia.
  - apply Z.leb_gt in E. apply Z.div_pos.
    + assert (0 <= 2 ^ (- e)) by (apply Z.pow_nonneg; lia). lia.
    + apply Z.pow_pos_nonneg; lia.
Qed.

(** [parsePrice] returns on every string: a non-negative integer, or
    [NaN], or [Infinity]. *)
Lemma parsePrice_range (raw : string) :
  parsePrice raw = NaN \/ parsePrice raw = Infinity \/
  nonneg_integer (parsePrice raw).
Proof.
  unfold parsePrice. destruct (match_price (remove_commas raw)) as [m|].
  - unfold parseFloat.
    match goal with |- context [if ?c then FNaN else _] => destruct c end;
      [now left|].
    match goal with |- context [nearest_double ?n ?d] =>
      destruct (nearest_double_nonneg n d) as [H | [m' [e [H Hm]]]] end.
    + destruct (fraction_digits_take (drop_while is_digit m)) as [r ->].
      apply digits_value_nonneg, digits_value_nonneg. lia.
    + apply Z.pow_pos_nonneg; lia.
    + rewrite H. right; now left.
    + rewrite H. right; right. now apply Math_round_nonneg.
  - right; right. exists 0. split; [reflexivity | lia].
Qed.

(** C3.  On ["Rs. 500"] the first run of digits and dots is the lone dot
    after [Rs]; [parseFloat] makes [NaN] of it and [parsePrice] returns
    [NaN], which is no non-negative integer, although the text holds the
    number 500.  The three values the specification gives are returned:
    1300 for ["1,299.50"], 0 for the empty string and for
    ["Call for price"]. *)
Theorem parsePrice_lone_dot :
  parsePrice "Rs. 500" = NaN /\
  ~ nonneg_integer (parsePrice "Rs. 500") /\
  parsePrice "1,299.50" = Int 1300 /\
  parsePrice EmptyString = Int 0 /\
  parsePrice "Call for price" = Int 0.
Proof.
  repeat split; try (vm_compute; reflexivity).
  intros [z [H _]]. vm_compute in H. discriminate.
Qed.

(** ** Image URLs *)

Lemma resolve_image_protocol_relative (raw : string) :
  startsWith "//" raw = true -> resolve_image raw = ("https:" ++ raw)%string.
Proof.
  intros H. unfold resolve_image, or_else.
  destruct raw as [|c raw]; [discriminate|].
  cbn [truthy String.eqb negb andb]. now rewrite H.
Qed.

Lemma resolve_image_other (raw : string) :
  startsWith "//" raw = false -> resolve_image raw = raw.
Proof.
  intros H. unfold resolve_image, or_else.
  destruct raw as [|c raw]; [reflexivity|].
  cbn [truthy String.eqb negb andb]. now rewrite H.
Qed.

(** C5.  A raw image URL that starts with ["//"] gets the ["https:"]
    prefix and every other one is stored as it is: the page that lists
    [sample_item], whose image is ["/media/aviator.jpg"], makes
    [scrapeConfig] return a record whose [imageUrl] is that path, neither
    empty nor absolute. *)
Theorem imageUrl_relative_kept :
  (forall raw, startsWith "//" raw = true ->
     resolve_image raw = ("https:" ++ raw)%string) /\
  (forall raw, startsWith "//" raw = false -> resolve_image raw = raw) /\
  exists p s',
    scrapeConfig (sample_world 0) sample_config 1000 (start Absent)
      = (Ok [p], s') /\
    Product.imageUrl p = "/media/aviator.jpg"%string /\
    Product.imageUrl p <> EmptyString /\
    is_absolute_url (Product.imageUrl p) = false.
Proof.
  split; [exact resolve_image_protocol_relative|].
  split; [exact resolve_image_other|].
  eexists _, _. split; [vm_compute; reflexivity|].
  repeat split. discriminate.
Qed.

(** ** The store *)

Lemma filter_manual_run (elements : list json) (s : state) :
  filter_manual elements s =
  (match kept_manual elements with
   | Some kept => Ok kept
   | None => Throw TypeError
   end, s).
Proof.
  induction elements as [|p rest IH]; [reflexivity|].
  cbn [filter_manual]. unfold bind.
  destruct p; cbn [manual_is_true kept_manual throw ret]; try reflexivity;
    rewrite IH; destruct (kept_manual rest); reflexivity.
Qed.

Lemma load_existing_run (s : state) :
  load_existing s = (Ok (existing_of (file s)), s).
Proof.
  unfold load_existing, bind, existsSync, try_catch, readFileSync, existing_of.
  destruct s as [n t o f]. cbn [file].
  destruct f as [| |[|v]]; try reflexivity.
  destruct v; try reflexivity.
  simpl. rewrite filter_manual_run.
  destruct (kept_manual elements); reflexivity.
Qed.

Lemma kept_manual_no_null (elements : list json) :
  ~ In JNull elements ->
  kept_manual elements = Some (filter has_manual_true elements).
Proof.
  induction elements as [|p rest IH]; intros H; [reflexivity|].
  assert (Hp : p <> JNull) by (intros ->; apply H; now left).
  assert (Hrest : ~ In JNull rest) by (intros Hin; apply H; now right).
  cbn [kept_manual filter]. rewrite (IH Hrest).
  destruct p; try reflexivity; now elim Hp.
Qed.

Lemma existing_of_store (elements : list json) :
  ~ In JNull elements ->
  existing_of (store_of elements) = filter has_manual_true elements.
Proof.
  intros H. unfold existing_of, store_of. now rewrite kept_manual_no_null.
Qed.

Lemma loadCachedProducts_run (s : state) :
  loadCachedProducts s =
  (Ok (match file s with
       | Contents (Json v) => v
       | _ => JArr []
       end), s).
Proof.
  unfold loadCachedProducts, bind, existsSync, try_catch, readFileSync.
  destruct s as [n t o f]. cbn [file].
  destruct f as [| |[|v]]; reflexivity.
Qed.

(** ** One page *)

Lemma bump_zero (s : state) : bump 0 0 s = s.
Proof. destruct s; reflexivity. Qed.

Lemma zseq_app (z : Z) (n m : nat) :
  zseq z (n + m) = zseq z n ++ zseq (z + Z.of_nat n) m.
Proof.
  revert z. induction n as [|n IH]; intros z.
  - simpl. now rewrite Z.add_0_r.
  - cbn [Nat.add zseq app]. rewrite IH. do 3 f_equal. lia.
Qed.

Lemma zseq_bounds (z : Z) (n : nat) :
  Forall (fun i => z <= i < z + Z.of_nat n) (zseq z n).
Proof.
  revert z. induction n as [|n IH]; intros z; [constructor|].
  cbn [zseq]. constructor; [lia|].
  eapply Forall_impl; [|apply IH]. cbv beta. intros i Hi. lia.
Qed.

Lemma zseq_sorted (z : Z) (n : nat) : StronglySorted Z.lt (zseq z n).
Proof.
  revert z. induction n as [|n IH]; intros z; [constructor|].
  cbn [zseq]. constructor; [apply IH|].
  eapply Forall_impl; [|apply zseq_bounds]. cbv beta. intros i Hi. lia.
Qed.

Lemma scrape_items_run (w : world) (config : Config.config) (url : string)
  (items : list Item.item) (products : list Product.product) (idCounter : Z)
  (s : state) :
  let built := page_products w config url items idCounter (ticks s) in
  scrape_items w config url items products idCounter s =
  (Ok (products ++ built, idCounter + Z.of_nat (length built)),
   bump 0 (length built) s).
Proof.
  revert products idCounter s.
  induction items as [|item rest IH]; intros products idCounter s.
  - simpl. now rewrite app_nil_r, Z.add_0_r, bump_zero.
  - cbn [scrape_items page_products].
    destruct (negb (truthy (Item.rawName item))); [apply IH|].
    unfold bind, now. cbv zeta in IH. rewrite IH. cbn [ticks length].
    rewrite <- app_assoc. cbn [app]. unfold bump.
    cbn [visits ticks open_pages file].
    f_equal; [do 2 f_equal | f_equal]; lia.
Qed.

Lemma page_products_ids (w : world) (config : Config.config) (url : string)
  (items : list Item.item) (idCounter : Z) (tick : nat) :
  map Product.id (page_products w config url items idCounter tick) =
  zseq idCounter (length (page_products w config url items idCounter tick)).
Proof.
  revert idCounter tick.
  induction items as [|item rest IH]; intros idCounter tick; [reflexivity|].
  cbn [page_products]. destruct (negb (truthy (Item.rawName item))) eqn:E.
  - apply IH.
  - cbn [map length zseq]. now rewrite IH.
Qed.

Lemma page_products_from_page (w : world) (config : Config.config)
  (url : string) (items : list Item.item) (idCounter : Z) (tick : nat) :
  Forall (from_page config url)
    (page_products w config url items idCounter tick).
Proof.
  revert idCounter tick.
  induction items as [|item rest IH]; intros idCounter tick; [constructor|].
  cbn [page_products]. destruct (truthy (Item.rawName item)) eqn:E; cbn [negb].
  - constructor; [|apply IH]. now exists item, idCounter, (clock w tick).
  - apply IH.
Qed.

Lemma scrape_page_fails (w : world) (config : Config.config) (url : string)
  (st : stage) (closes : bool) (products : list Product.product)
  (idCounter : Z) (s : state) :
  scrape_page w config url {| page_body := Fails st; page_closes := closes |}
    products idCounter s = (Throw DriverError, s).
Proof. destruct st; reflexivity. Qed.

Lemma scrape_page_extracted (w : world) (config : Config.config)
  (url : string) (items : list Item.item) (closes : bool)
  (products : list Product.product) (idCounter : Z) (s : state) :
  scrape_page w config url
    {| page_body := Extracted items; page_closes := closes |}
    products idCounter s =
  scrape_items w config url items products idCounter s.
Proof. reflexivity. Qed.

(** A page whose [try] block throws adds nothing: the loop goes on with
    the same list and counter, the page closed. *)
Lemma scrape_urls_failed_page (w : world) (config : Config.config)
  (url : string) (rest : list string) (products : list Product.product)
  (idCounter : Z) (s : state) (st : stage) :
  visit w (visits s) url = Page (Fails st) true ->
  scrape_urls w config (url :: rest) products idCounter s =
  scrape_urls w config rest products idCounter (bump 1 0 s).
Proof.
  intros V. cbn [scrape_urls]. unfold bind at 1. unfold newPage. rewrite V.
  unfold bind at 1. unfold try_catch_finally, try_catch.
  rewrite scrape_page_fails. reflexivity.
Qed.

(** A page that is extracted adds its products, in order. *)
Lemma scrape_urls_extracted_page (w : world) (config : Config.config)
  (url : string) (rest : list string) (products : list Product.product)
  (idCounter : Z) (s : state) (items : list Item.item) :
  visit w (visits s) url = Page (Extracted items) true ->
  let built := page_products w config url items idCounter (ticks s) in
  scrape_urls w config (url :: rest) products idCounter s =
  scrape_urls w config rest (products ++ built)
    (idCounter + Z.of_nat (length built)) (bump 1 (length built) s).
Proof.
  intros V built. cbn [scrape_urls]. unfold bind at 1. unfold newPage.
  rewrite V. unfold bind at 1. unfold try_catch_finally, try_catch.
  rewrite scrape_page_extracted, scrape_items_run. reflexivity.
Qed.

(** The loop throws when a page cannot be opened or closed. *)
Lemma scrape_urls_page_lost (w : world) (config : Config.config)
  (url : string) (rest : list string) (products : list Product.product)
  (idCounter : Z) (s : state) :
  (visit w (visits s) url = NewPageThrows \/
   exists body, visit w (visits s) url = Page body false) ->
  exists s', scrape_urls w config (url :: rest) products idCounter s =
             (Throw DriverError, s').
Proof.
  intros [V | [body V]]; cbn [scrape_urls]; unfold bind at 1;
    unfold newPage; rewrite V.
  - eexists. reflexivity.
  - unfold bind at 1. unfold try_catch_finally.
    destruct (try_catch _ _ _) as [r s1]. eexists. reflexivity.
Qed.

(** ** The pages of a descriptor *)

Lemma scrape_urls_inv (w : world) (config : Config.config)
  (urls : list string) (products : list Product.product) (idCounter : Z)
  (s : state) (out : list Product.product) (s' : state) :
  scrape_urls w config urls products idCounter s = (Ok out, s') ->
  exists built,
    out = products ++ built /\
    map Product.id built = zseq idCounter (length built) /\
    Forall (fun p => exists url, In url urls /\ from_page config url p) built.
Proof.
  revert products idCounter s.
  induction urls as [|url rest IH]; intros products idCounter s H.
  - injection H as <- _. exists []. rewrite app_nil_r.
    repeat split; constructor.
  - destruct (visit w (visits s) url) as [|body [|]] eqn:V.
    + destruct (scrape_urls_page_lost w config url rest products idCounter s
                  (or_introl V)) as [s0 E].
      rewrite E in H. discriminate.
    + destruct body as [st|items].
      * rewrite (scrape_urls_failed_page _ _ _ _ _ _ _ _ V) in H.
        apply IH in H as [built [-> [Hids Hfrom]]].
        exists built. repeat split; trivial.
        eapply Forall_impl; [|exact Hfrom].
        intros p [u [Hu Hp]]. exists u. split; [now right | trivial].
      * rewrite (scrape_urls_extracted_page _ _ _ _ _ _ _ _ V) in H.
        cbv zeta in H. apply IH in H as [built [-> [Hids Hfrom]]].
        exists (page_products w config url items idCounter (ticks s) ++ built).
        rewrite app_assoc. split; [reflexivity|]. split.
        -- now rewrite map_app, length_app, zseq_app, page_products_ids, Hids.
        -- apply Forall_app. split.
           ++ eapply Forall_impl; [|apply page_products_from_page].
              intros p Hp. exists url. split; [now left | trivial].
           ++ eapply Forall_impl; [|exact Hfrom].
              intros p [u [Hu Hp]]. exists u. split; [now right | trivial].
    + destruct (scrape_urls_page_lost w config url rest products idCounter s)
        as [s0 E]; [right; now exists body|].
      rewrite E in H. discriminate.
Qed.

Lemma scrape_urls_returns (w : world) (config : Config.config)
  (urls : list string) (products : list Product.product) (idCounter : Z)
  (s : state) :
  (forall n url, exists body, visit w n url = Page body true) ->
  exists out s', scrape_urls w config urls products idCounter s = (Ok out, s').
Proof.
  intros Hw. revert products idCounter s.
  induction urls as [|url rest IH]; intros products idCounter s.
  - now exists products, s.
  - destruct (Hw (visits s) url) as [[st|items] V].
    + rewrite (scrape_urls_failed_page _ _ _ _ _ _ _ _ V). apply IH.
    + rewrite (scrape_urls_extracted_page _ _ _ _ _ _ _ _ V). apply IH.
Qed.

(** ** The descriptors of a run *)

Lemma StronglySorted_app (l1 l2 : list Z) :
  StronglySorted Z.lt l1 -> StronglySorted Z.lt l2 ->
  (forall x y, In x l1 -> In y l2 -> x < y) ->
  StronglySorted Z.lt (l1 ++ l2).
Proof.
  induction l1 as [|a l1 IH]; intros H1 H2 H12; [exact H2|].
  apply StronglySorted_inv in H1 as [H1 Ha].
  cbn [app]. constructor.
  - apply IH; trivial. intros x y Hx Hy. apply H12; [now right | trivial].
  - apply Forall_app. split; [exact Ha|].
    apply Forall_forall. intros y Hy. apply H12; [now left | trivial].
Qed.

Lemma fresh_ids_zseq (lo : Z) (products : list Product.product) :
  map Product.id products = zseq lo (length products) ->
  fresh_ids lo (lo + Z.of_nat (length products)) products.
Proof.
  intros H. unfold fresh_ids. rewrite H.
  split; [apply zseq_sorted | apply zseq_bounds].
Qed.

Lemma fresh_ids_app (a b b' c : Z) (l1 l2 : list Product.product) :
  fresh_ids a b l1 -> fresh_ids b' c l2 -> a <= b -> b <= b' -> b' <= c ->
  fresh_ids a c (l1 ++ l2).
Proof.
  intros [S1 B1] [S2 B2] Hab Hbb Hbc. unfold fresh_ids. rewrite map_app.
  rewrite Forall_forall in B1, B2. split.
  - apply StronglySorted_app; trivial.
    intros x y Hx Hy. specialize (B1 x Hx). specialize (B2 y Hy). lia.
  - apply Forall_app. split; apply Forall_forall; intros i Hi;
      [specialize (B1 i Hi) | specialize (B2 i Hi)]; lia.
Qed.

Lemma scrape_configs_inv (w : world) (configs : list Config.config)
  (allScraped : list Product.product) (idCounter : Z) (s : state)
  (out : list Product.product) (idCounter' : Z) (s' : state) :
  scrape_configs w configs allScraped idCounter s
    = (Ok (out, idCounter'), s') ->
  exists built,
    out = allScraped ++ built /\
    idCounter <= idCounter' /\
    fresh_ids idCounter idCounter' built /\
    Forall (from_configs configs) built.
Proof.
  revert allScraped idCounter s.
  induction configs as [|config rest IH]; intros allScraped idCounter s H.
  - injection H as <- <- _. exists []. rewrite app_nil_r.
    repeat split; try constructor. lia.
  - cbn [scrape_configs] in H.
    destruct (Config.enabled config) eqn:En; cbn [negb] in H.
    + unfold bind at 1 in H.
      destruct (scrapeConfig w config idCounter s) as [[products|e] s1] eqn:E;
        [|discriminate].
      apply scrape_urls_inv in E as [built1 [-> [Hids1 Hfrom1]]].
      cbn [app] in H.
      apply IH in H as [built2 [-> [Hle [Hfresh2 Hfrom2]]]].
      exists (built1 ++ built2). rewrite app_assoc.
      split; [reflexivity|]. split; [lia|]. split.
      * eapply fresh_ids_app;
          [apply fresh_ids_zseq, Hids1 | exact Hfresh2 | lia | lia | lia].
      * apply Forall_app. split.
        -- eapply Forall_impl; [|exact Hfrom1].
           intros p [u [Hu Hp]]. exists config, u.
           repeat split; trivial. now left.
        -- eapply Forall_impl; [|exact Hfrom2].
           intros p [c [u [Hc H']]]. exists c, u. split; [now right | trivial].
    + apply IH in H as [built [-> [Hle [Hfresh Hfrom]]]].
      exists built. repeat split; trivial; try apply Hfresh.
      eapply Forall_impl; [|exact Hfrom].
      intros p [c [u [Hc H']]]. exists c, u. split; [now right | trivial].
Qed.

Lemma scrape_configs_returns (w : world) (configs : list Config.config)
  (allScraped : list Product.product) (idCounter : Z) (s : state) :
  (forall n url, exists body, visit w n url = Page body true) ->
  exists out s',
    scrape_configs w configs allScraped idCounter s = (Ok out, s').
Proof.
  intros Hw. revert allScraped idCounter s.
  induction configs as [|config rest IH]; intros allScraped idCounter s.
  - now exists (allScraped, idCounter), s.
  - cbn [scrape_configs]. destruct (negb (Config.enabled config)); [apply IH|].
    unfold bind at 1.
    destruct (scrape_urls_returns w config (Config.urls config) [] idCounter s Hw)
      as [products [s1 E]].
    unfold scrapeConfig. rewrite E. apply IH.
Qed.

(** An enabled descriptor whose pages the driver opens and closes is
    scraped, and the loop goes on with the next one, the counter advanced
    by the number of products and the gap of 10. *)
Lemma scrape_configs_enabled (w : world) (config : Config.config)
  (rest : list Config.config) (allScraped : list Product.product)
  (idCounter : Z) (s : state) :
  (forall n url, exists body, visit w n url = Page body true) ->
  Config.enabled config = true ->
  exists products s1,
    scrapeConfig w config idCounter s = (Ok products, s1) /\
    scrape_configs w (config :: rest) allScraped idCounter s =
    scrape_configs w rest (allScraped ++ products)
      (idCounter + Z.of_nat (length products) + 10) s1.
Proof.
  intros Hw En.
  destruct (scrape_urls_returns w config (Config.urls config) [] idCounter s Hw)
    as [products [s1 E]].
  exists products, s1. split; [exact E|].
  cbn [scrape_configs]. rewrite En. cbn [negb]. unfold bind at 1.
  unfold scrapeConfig. now rewrite E.
Qed.

(** A disabled descriptor is passed over: list, counter and state go to
    the next descriptor as they are. *)
Lemma scrape_configs_skip (w : world) (pre : list Config.config)
  (config : Config.config) (post : list Config.config)
  (allScraped : list Product.product) (idCounter : Z) (s : state) :
  Config.enabled config = false ->
  scrape_configs w (pre ++ config :: post) allScraped idCounter s =
  scrape_configs w (pre ++ post) allScraped idCounter s.
Proof.
  intros En. revert allScraped idCounter s.
  induction pre as [|c pre IH]; intros allScraped idCounter s.
  - cbn [app scrape_configs]. now rewrite En.
  - cbn [app scrape_configs]. destruct (negb (Config.enabled c)); [apply IH|].
    unfold bind.
    destruct (scrapeConfig w c idCounter s) as [[products|e] s1];
      [apply IH | reflexivity].
Qed.

(** ** The run *)

Lemma runScraper_inv (w : world) (configs : list Config.config) (s : state)
  (merged : list entry) (s' : state) :
  runScraper w configs s = (Ok merged, s') ->
  exists scraped idCounter s1,
    scrape_configs w configs [] 1000 s = (Ok (scraped, idCounter), s1) /\
    merged = map Existing (existing_of (file s)) ++ map Fresh scraped /\
    file s' = store_of (map entry_json merged).
Proof.
  unfold runScraper. unfold bind at 1. rewrite load_existing_run.
  unfold bind at 1. unfold launch.
  destruct (launches w); [|discriminate]. cbn [ret].
  unfold bind at 1.
  destruct (scrape_configs w configs [] 1000 s)
    as [[[scraped idCounter]|e] s1]; [|discriminate].
  unfold bind at 1. unfold browser_close.
  destruct (browser_closes w); [|discriminate]. cbn [ret fst].
  unfold merge_and_write, bind, writeFileSync.
  destruct (write_failure w); [discriminate|].
  intros H. injection H as <- <-.
  now exists scraped, idCounter, s1.
Qed.

(** With the driver's life-cycle calls and the write succeeding, the run
    returns, whatever happens inside the [try] blocks. *)
Lemma runScraper_returns (w : world) (configs : list Config.config)
  (s : state) :
  healthy w -> exists merged s', runScraper w configs s = (Ok merged, s').
Proof.
  intros [Hl [Hv [Hc Hw]]].
  unfold runScraper. unfold bind at 1. rewrite load_existing_run.
  unfold bind at 1. unfold launch. rewrite Hl. cbn [ret].
  unfold bind at 1.
  destruct (scrape_configs_returns w configs [] 1000 s Hv)
    as [[scraped idCounter] [s1 E]].
  rewrite E. unfold bind at 1. unfold browser_close. rewrite Hc. cbn [ret fst].
  unfold merge_and_write, bind, writeFileSync. rewrite Hw.
  eexists _, _. reflexivity.
Qed.

Lemma kept_manual_all (elements kept : list json) :
  kept_manual elements = Some kept ->
  Forall (fun p => has_manual_true p = true) kept.
Proof.
  revert kept. induction elements as [|p rest IH]; intros kept H.
  - injection H as <-. constructor.
  - cbn [kept_manual] in H.
    destruct (kept_manual rest) as [k|];
      [|destruct p; discriminate].
    specialize (IH k eq_refl).
    assert (Hk : kept = if has_manual_true p then p :: k else k)
      by (destruct p; try discriminate; now injection H as <-).
    rewrite Hk. destruct (has_manual_true p) eqn:E; [constructor|]; trivial.
Qed.

Lemma existing_of_manual (f : cache_file) :
  Forall (fun p => has_manual_true p = true) (existing_of f).
Proof.
  unfold existing_of. destruct f as [| |[|v]]; try constructor.
  destruct v; try constructor.
  destruct (kept_manual elements) eqn:E; [|constructor].
  now apply kept_manual_all with elements.
Qed.

Lemma filter_all_manual (kept : list json) :
  Forall (fun p => has_manual_true p = true) kept ->
  filter has_manual_true kept = kept.
Proof.
  induction 1 as [|p kept Hp _ IH]; [reflexivity|].
  cbn [filter]. now rewrite Hp, IH.
Qed.

Lemma filter_scraped (scraped : list Product.product) :
  filter has_manual_true (map product_json scraped) = [].
Proof. induction scraped as [|p scraped IH]; [reflexivity | exact IH]. Qed.

(** ** Values read back *)

Lemma json_induction (P : json -> Prop) :
  P JNull -> (forall b, P (JBool b)) -> (forall n, P (JNum n)) ->
  (forall t, P (JStr t)) ->
  (forall elements, Forall P elements -> P (JArr elements)) ->
  (forall props, Forall (fun kv => P (snd kv)) props -> P (JObj props)) ->
  (forall m e, P (JFrac m e)) -> (forall negative, P (JInf negative)) ->
  P JNegZero ->
  forall v, P v.
Proof.
  intros HNull HBool HNum HStr HArr HObj HFrac HInf HNeg.
  fix IH 1. intros [ |b|n|t|elements|props|m e|negative| ].
  - exact HNull.
  - apply HBool.
  - apply HNum.
  - apply HStr.
  - apply HArr. induction elements as [|v rest IHrest]; constructor.
    + apply IH.
    + exact IHrest.
  - apply HObj. induction props as [|[k v] rest IHrest]; constructor.
    + apply IH.
    + exact IHrest.
  - apply HFrac.
  - apply HInf.
  - exact HNeg.
Qed.

(** Writing and reading a second time changes nothing more. *)
Lemma stored_form_idempotent (v : json) :
  stored_form (stored_form v) = stored_form v.
Proof.
  induction v as [ |b|n|t|elements IH|props IH|m e|negative| ]
    using json_induction; try reflexivity.
  - cbn [stored_form]. f_equal. rewrite map_map.
    induction IH as [|v rest Hv _ IHrest]; [reflexivity|].
    cbn [map]. now rewrite Hv, IHrest.
  - cbn [stored_form]. f_equal. rewrite map_map.
    induction IH as [|[k v] rest Hv _ IHrest]; [reflexivity|].
    cbn [map snd] in *. now rewrite Hv, IHrest.
Qed.

Lemma stored_form_finite (v : json) :
  finite_numbers v = true -> stored_form v = v.
Proof.
  induction v as [ |b|n|t|elements IH|props IH|m e|negative| ]
    using json_induction; try reflexivity; try discriminate.
  - cbn [finite_numbers stored_form]. intros H. f_equal.
    induction IH as [|v rest Hv _ IHrest]; [reflexivity|].
    cbn [forallb] in H. apply andb_true_iff in H as [H1 H2].
    cbn [map]. now rewrite Hv, IHrest.
  - cbn [finite_numbers stored_form]. intros H. f_equal.
    induction IH as [|[k v] rest Hv _ IHrest]; [reflexivity|].
    cbn [forallb] in H. apply andb_true_iff in H as [H1 H2].
    cbn [map snd] in *. now rewrite Hv, IHrest.
Qed.

Lemma stored_form_all_finite (kept : list json) :
  Forall (fun p => finite_numbers p = true) kept ->
  map stored_form kept = kept.
Proof.
  induction 1 as [|p kept Hp _ IH]; [reflexivity|].
  cbn [map]. now rewrite stored_form_finite, IH.
Qed.

Lemma stored_form_product (p : Product.product) :
  stored_form (product_json p) = product_json p.
Proof.
  unfold product_json. cbn [stored_form map]. repeat f_equal.
  destruct (Product.price p); reflexivity.
Qed.

Lemma get_prop_stored (key : string) (props : list (string * json)) :
  get_prop key
    (map (fun kv : string * json =>
            let (k, x) := kv in (k, stored_form x)) props) =
  option_map stored_form (get_prop key props).
Proof.
  induction props as [|[k v] rest IH]; [reflexivity|].
  cbn [map get_prop]. destruct (String.eqb k key); [reflexivity | exact IH].
Qed.

(** The [manual] flag of a record is written as it is. *)
Lemma has_manual_true_stored (p : json) :
  has_manual_true (stored_form p) = has_manual_true p.
Proof.
  destruct p; try reflexivity.
  cbn [stored_form has_manual_true]. rewrite get_prop_stored.
  destruct (get_prop "manual" props) as [v|]; [|reflexivity].
  destruct v as [ |[|]|n|t|elements|props'|m e|negative| ]; reflexivity.
Qed.

Lemma stored_form_not_null (p : json) :
  has_manual_true p = true -> stored_form p <> JNull.
Proof. destruct p; try discriminate. Qed.

Lemma stored_all_manual (kept : list json) :
  Forall (fun p => has_manual_true p = true) kept ->
  Forall (fun p => has_manual_true p = true) (map stored_form kept).
Proof.
  intros H. apply Forall_map. eapply Forall_impl; [|exact H].
  cbv beta. intros p Hp. now rewrite has_manual_true_stored.
Qed.

Lemma map_stored_idempotent (kept : list json) :
  map stored_form (map stored_form kept) = map stored_form kept.
Proof.
  rewrite map_map. apply map_ext. intros p. apply stored_form_idempotent.
Qed.

Lemma merged_json (kept : list json) (scraped : list Product.product) :
  map entry_json (map Existing kept ++ map Fresh scraped) =
  map stored_form kept ++ map product_json scraped.
Proof. now rewrite map_app, !map_map. Qed.

(** Reading back what a run wrote: the kept records are the stored form
    of the kept records, no scraped one is taken for a manual one. *)
Lemma existing_of_merged (kept : list json) (scraped : list Product.product) :
  Forall (fun p => has_manual_true p = true) kept ->
  existing_of
    (store_of (map entry_json (map Existing kept ++ map Fresh scraped)))
  = map stored_form kept.
Proof.
  intros Hk. apply stored_all_manual in Hk.
  rewrite merged_json, existing_of_store.
  - now rewrite filter_app, filter_all_manual, filter_scraped, app_nil_r.
  - intros Hin. apply in_app_or in Hin as [Hin | Hin].
    + rewrite Forall_forall in Hk. specialize (Hk _ Hin). discriminate.
    + apply in_map_iff in Hin as [p [Hp _]]. discriminate.
Qed.

Lemma existing_of_after_run (w : world) (configs : list Config.config)
  (s : state) (merged : list entry) (s' : state) :
  runScraper w configs s = (Ok merged, s') ->
  existing_of (file s') = map stored_form (existing_of (file s)).
Proof.
  intros H. apply runScraper_inv in H as [scraped [idc [s1 [_ [-> ->]]]]].
  apply existing_of_merged, existing_of_manual.
Qed.

(** Through completed runs the kept records are those of the first
    store, in their stored form once a run has written them. *)
Lemma existing_of_after_runs (configs : list Config.config)
  (f f' : cache_file) :
  after_runs configs f f' ->
  existing_of f' = existing_of f \/
  existing_of f' = map stored_form (existing_of f).
Proof.
  induction 1 as [f | f w s merged s' f' Hf Hrun _ IH]; [now left|].
  right. apply existing_of_after_run in Hrun. rewrite Hf in Hrun.
  destruct IH as [IH | IH]; rewrite IH, Hrun;
    [reflexivity | apply map_stored_idempotent].
Qed.

Lemma merge_and_write_run (w : world) (existing : list json)
  (allScraped : list Product.product) (s : state) :
  write_failure w = None ->
  merge_and_write w existing allScraped s =
  (Ok (map Existing existing ++ map Fresh allScraped),
   set_file (store_of (map entry_json
               (map Existing existing ++ map Fresh allScraped))) s).
Proof.
  intros Hw. unfold merge_and_write, bind, writeFileSync. now rewrite Hw.
Qed.

(** ** Identifiers *)

Lemma StronglySorted_NoDup (l : list Z) : StronglySorted Z.lt l -> NoDup l.
Proof.
  induction 1 as [|a l _ IH Ha]; constructor; trivial.
  intros Hin. rewrite Forall_forall in Ha. specialize (Ha a Hin). lia.
Qed.

Lemma fresh_ids_NoDup (lo hi : Z) (scraped : list Product.product) :
  fresh_ids lo hi scraped -> NoDup (map entry_id (map Fresh scraped)).
Proof.
  intros [Hs _]. apply StronglySorted_NoDup in Hs.
  rewrite map_map. cbn [entry_id].
  induction scraped as [|p scraped IH]; [constructor|].
  cbn [map] in *. apply NoDup_cons_iff in Hs as [Hp Hs].
  constructor; [|now apply IH].
  intros Hin. apply Hp. apply in_map_iff in Hin as [q [Hq Hin]].
  injection Hq as Hq. rewrite <- Hq. now apply in_map.
Qed.

Lemma unique_ids_merged (kept : list json) (scraped : list Product.product)
  (hi : Z) :
  NoDup (map entry_id (map Existing kept)) ->
  Forall id_below_offset kept ->
  fresh_ids 1000 hi scraped ->
  unique_ids (map Existing kept ++ map Fresh scraped).
Proof.
  intros Hk Hb Hf. unfold unique_ids. rewrite map_app.
  apply NoDup_app; trivial; [now apply fresh_ids_NoDup with 1000 hi|].
  intros i Hi Hi'.
  rewrite map_map in Hi, Hi'.
  apply in_map_iff in Hi as [p [Hp Hin]].
  apply in_map_iff in Hi' as [q [Hq Hin']].
  rewrite Forall_forall in Hb. destruct (Hb p Hin) as [z [Hz Hlt]].
  destruct Hf as [_ Hf]. rewrite Forall_forall in Hf.
  specialize (Hf (Product.id q) (in_map _ _ _ Hin')).
  cbn [entry_id] in Hq. rewrite Hz in Hp. rewrite <- Hq in Hp.
  injection Hp as Hp. lia.
Qed.

Lemma kept_manual_null (elements : list json) :
  In JNull elements -> kept_manual elements = None.
Proof.
  induction elements as [|p rest IH]; intros H; [destruct H|].
  destruct H as [-> | H]; [reflexivity|].
  cbn [kept_manual]. rewrite (IH H). now destruct p.
Qed.

Lemma existing_of_nothing (f : cache_file) :
  (forall old, f <> store_of old) \/ In JNull (elements_of f) ->
  existing_of f = [].
Proof.
  unfold existing_of, elements_of, store_of.
  destruct f as [| |[|v]]; try reflexivity.
  destruct v; try reflexivity.
  intros [H | H]; [now elim (H elements)|].
  now rewrite kept_manual_null.
Qed.

(** C1 (amended).  A run that completes returns the kept records followed
    by the newly scraped ones and writes that list to the store, each
    kept record in the form [JSON.stringify] gives it.  When the old
    store is an array without a [null] entry, the kept records are its
    entries with [manual === true], unchanged and in order: each of them
    is in the merged output as it was, and in the rewritten store in its
    stored form, which is the record itself when it holds no number
    that is not finite and no negative zero.  An entry without
    [manual === true] is dropped: it is not in the merged output, and the
    rewritten store holds it only as the JSON form of a newly scraped
    record.  When the store is no array, or an array with a [null]
    entry, nothing is kept. *)
Theorem manual_records_pass_through (w : world)
  (configs : list Config.config) (s : state) (merged : list entry)
  (s' : state) :
  runScraper w configs s = (Ok merged, s') ->
  exists scraped idCounter s1,
    scrape_configs w configs [] 1000 s = (Ok (scraped, idCounter), s1) /\
    merged = map Existing (existing_of (file s)) ++ map Fresh scraped /\
    file s' = store_of (map entry_json merged) /\
    elements_of (file s') =
      map stored_form (existing_of (file s)) ++ map product_json scraped /\
    (forall old, file s = store_of old -> ~ In JNull old ->
       existing_of (file s) = filter has_manual_true old /\
       (forall r, In r old -> has_manual_true r = true ->
          In (Existing r) merged /\
          In (stored_form r) (elements_of (file s')) /\
          (finite_numbers r = true -> In r (elements_of (file s')))) /\
       (forall r, In r old -> has_manual_true r = false ->
          ~ In (Existing r) merged /\
          (In r (elements_of (file s')) ->
           exists p, In p scraped /\ r = product_json p))) /\
    ((forall old, file s <> store_of old) \/ In JNull (elements_of (file s)) ->
     existing_of (file s) = []).
Proof.
  intros H. apply runScraper_inv in H as [scraped [idc [s1 [Hsc [-> Hf]]]]].
  exists scraped, idc, s1.
  assert (He : elements_of (file s') =
               map stored_form (existing_of (file s))
               ++ map product_json scraped).
  { rewrite Hf. cbn [elements_of store_of]. apply merged_json. }
  split; [exact Hsc|]. split; [reflexivity|]. split; [exact Hf|].
  split; [exact He|]. split; [|apply existing_of_nothing].
  intros old Hold Hnull.
  assert (Hk : existing_of (file s) = filter has_manual_true old)
    by (rewrite Hold; now apply existing_of_store).
  split; [exact Hk|]. split.
  - intros r Hr Hm.
    assert (Hin : In r (existing_of (file s)))
      by (rewrite Hk; apply filter_In; now split).
    assert (Hst : In (stored_form r) (elements_of (file s')))
      by (rewrite He; apply in_or_app; left; now apply in_map).
    split; [apply in_or_app; left; now apply in_map|].
    split; [exact Hst|].
    intros Hfin. now rewrite (stored_form_finite r Hfin) in Hst.
  - intros r Hr Hm. split.
    + intros Hin. apply in_app_or in Hin as [Hin | Hin].
      * apply in_map_iff in Hin as [q [Hq Hin]]. injection Hq as ->.
        pose proof (existing_of_manual (file s)) as HM.
        rewrite Forall_forall in HM. specialize (HM r Hin). congruence.
      * apply in_map_iff in Hin as [q [Hq _]]. discriminate.
    + rewrite He. intros Hin. apply in_app_or in Hin as [Hin | Hin].
      * apply in_map_iff in Hin as [q [Hq Hin]].
        pose proof (existing_of_manual (file s)) as HM.
        rewrite Forall_forall in HM. specialize (HM q Hin).
        rewrite <- has_manual_true_stored, Hq in HM. congruence.
      * apply in_map_iff in Hin as [p [Hp Hin]]. now exists p.
Qed.

Lemma manual_records_pass_through_witness :
  exists merged s',
    runScraper (sample_world 0) [sample_config]
      (start (store_of [manual_record_7; stale_record])) = (Ok merged, s') /\
    In (Existing manual_record_7) merged /\
    In manual_record_7 (elements_of (file s')) /\
    ~ In (Existing stale_record) merged.
Proof.
  destruct (runScraper (sample_world 0) [sample_config]
              (start (store_of [manual_record_7; stale_record])))
    as [[merged|e] s'] eqn:H; [|vm_compute in H; discriminate].
  exists merged, s'. split; [reflexivity|].
  destruct (manual_records_pass_through _ _ _ _ _ H)
    as (scraped & idc & s1 & _ & _ & _ & _ & Hold & _).
  destruct (Hold [manual_record_7; stale_record] eq_refl)
    as (_ & Hman & Hnot).
  { simpl. intros [H' | [H' | []]]; discriminate. }
  destruct (Hman manual_record_7) as (H1 & _ & H2);
    [now left | reflexivity |].
  destruct (Hnot stale_record) as [H3 _];
    [right; now left | reflexivity |].
  repeat split; trivial. now apply H2.
Defined.

(** C1 as stated fails twice.  With a [null] entry next to it in the
    store, a record with [manual === true] is in neither the merged
    output nor the rewritten store; and a record with [manual === true]
    that holds a number read as [Infinity] is not unchanged in the
    rewritten store, where that number is [null]. *)
Lemma manual_records_counterexample :
  (exists merged s',
     runScraper (sample_world 0) [sample_config]
       (start (store_of [manual_record_7; JNull])) = (Ok merged, s') /\
     In manual_record_7 (elements_of (store_of [manual_record_7; JNull])) /\
     has_manual_true manual_record_7 = true /\
     ~ In (Existing manual_record_7) merged /\
     ~ In manual_record_7 (elements_of (file s'))) /\
  (exists merged s',
     runScraper (sample_world 0) [sample_config]
       (start (store_of [manual_record_heavy])) = (Ok merged, s') /\
     In manual_record_heavy (elements_of (store_of [manual_record_heavy])) /\
     has_manual_true manual_record_heavy = true /\
     ~ In manual_record_heavy (elements_of (file s'))).
Proof.
  split; eexists _, _; (split; [vm_compute; reflexivity|]).
  - split; [now left|]. split; [reflexivity|].
    split; intros [H | []]; discriminate.
  - split; [now left|]. split; [reflexivity|].
    intros [H | [H | []]]; discriminate.
Qed.

Lemma entry_id_stored (p : json) :
  id_below_offset p ->
  entry_id (Existing (stored_form p)) = entry_id (Existing p).
Proof.
  intros [z [Hz _]]. destruct p; try discriminate Hz.
  cbn [entry_id stored_form] in *. now rewrite get_prop_stored, Hz.
Qed.

Lemma ids_stored (kept : list json) :
  Forall id_below_offset kept ->
  map entry_id (map Existing (map stored_form kept)) =
    map entry_id (map Existing kept) /\
  Forall id_below_offset (map stored_form kept).
Proof.
  induction 1 as [|p kept Hp _ [IH1 IH2]]; [split; [reflexivity | constructor]|].
  pose proof (entry_id_stored p Hp) as E. cbn [map]. split.
  - now rewrite E, IH1.
  - constructor; [|exact IH2].
    destruct Hp as [z [Hz Hlt]]. exists z. rewrite E. now split.
Qed.

(** C2 (amended).  In every merged catalog, the scraped records carry
    strictly increasing identifiers from 1000 on, and the kept records
    are those of the store the sequence of runs started from (in their
    stored form once a run has written them); so no two records share
    an [id] provided the manual records of that store carry pairwise
    distinct identifiers, all of them numbers below 1000.  This holds
    after any sequence of completed runs. *)
Theorem ids_unique_below_offset (configs : list Config.config)
  (f0 : cache_file) (w : world) (s : state) (merged : list entry)
  (s' : state) :
  after_runs configs f0 (file s) ->
  runScraper w configs s = (Ok merged, s') ->
  exists kept scraped hi,
    merged = map Existing kept ++ map Fresh scraped /\
    (kept = existing_of f0 \/ kept = map stored_form (existing_of f0)) /\
    fresh_ids 1000 hi scraped /\
    unique_ids (map Fresh scraped) /\
    (NoDup (map entry_id (map Existing (existing_of f0))) ->
     Forall id_below_offset (existing_of f0) ->
     unique_ids merged).
Proof.
  intros Hruns H. apply existing_of_after_runs in Hruns.
  apply runScraper_inv in H as [scraped [hi [s1 [Hsc [-> _]]]]].
  apply scrape_configs_inv in Hsc as [built [Hb [_ [Hfresh _]]]].
  cbn [app] in Hb. subst built.
  exists (existing_of (file s)), scraped, hi.
  split; [reflexivity|]. split; [exact Hruns|]. split; [exact Hfresh|].
  split; [now apply fresh_ids_NoDup with 1000 hi|].
  intros Hk Hbelow. destruct Hruns as [-> | ->].
  - now apply unique_ids_merged with hi.
  - destruct (ids_stored _ Hbelow) as [Hids Hb'].
    apply unique_ids_merged with hi; trivial. now rewrite Hids.
Qed.

Lemma ids_unique_below_offset_witness :
  exists merged1 s1 merged2 s2,
    runScraper (sample_world 0) [sample_config]
      (start (store_of [manual_record_7])) = (Ok merged1, s1) /\
    runScraper (sample_world 1) [sample_config] (start (file s1))
      = (Ok merged2, s2) /\
    unique_ids merged2.
Proof.
  destruct (runScraper (sample_world 0) [sample_config]
              (start (store_of [manual_record_7])))
    as [[merged1|e] s1] eqn:H1; [|vm_compute in H1; discriminate].
  destruct (runScraper (sample_world 1) [sample_config] (start (file s1)))
    as [[merged2|e] s2] eqn:H2.
  - exists merged1, s1, merged2, s2.
    split; [reflexivity|]. split; [exact H2|].
    assert (Hruns : after_runs [sample_config] (store_of [manual_record_7])
                      (file (start (file s1)))).
    { eapply runs_more; [| exact H1 | apply runs_none]. reflexivity. }
    destruct (ids_unique_below_offset _ _ _ _ _ _ Hruns H2)
      as (kept & scraped & hi & _ & _ & _ & _ & Hu).
    apply Hu.
    + repeat constructor. simpl. tauto.
    + repeat constructor. exists 7. split; [reflexivity | lia].
  - exfalso. destruct (runScraper_returns (sample_world 1) [sample_config]
                         (start (file s1))) as [m [s3 E]].
    + repeat split. intros n url. cbn [sample_world visit].
      destruct (Nat.eqb n 1); eexists; reflexivity.
    + rewrite E in H2. discriminate.
Defined.

(** C2 as stated fails: a manual record may carry the identifier 1000,
    which the run gives to the first product it scrapes. *)
Lemma shared_id_counterexample :
  exists merged s',
    runScraper (sample_world 0) [sample_config]
      (start (store_of [manual_record])) = (Ok merged, s') /\
    ~ unique_ids merged.
Proof.
  eexists _, _. split; [vm_compute; reflexivity|].
  unfold unique_ids. cbn [map entry_id manual_record get_prop String.eqb
    Ascii.eqb Bool.eqb Product.id].
  intros H. apply NoDup_cons_iff in H as [H _]. apply H. now left.
Qed.

Lemma existing_of_manual_store (manual : list json) :
  Forall (fun p => has_manual_true p = true) manual ->
  existing_of (store_of manual) = manual.
Proof.
  intros HM. rewrite existing_of_store, filter_all_manual; trivial.
  intros Hin. rewrite Forall_forall in HM. specialize (HM _ Hin).
  discriminate.
Qed.

(** C6 (amended).  From a store that holds only the manual records
    [manual], two reconciliations with the scraped list [scraped] leave
    the records of [manual], each in the form [JSON.stringify] gives it,
    followed by [scraped]: the records the first one appended are
    dropped by the second, none is kept twice.  The store is exactly
    [manual] followed by [scraped] when the manual records hold no
    number that is not finite and no negative zero.  The same holds of
    two completed runs of [runScraper]: the store ends as the manual
    records followed by what the second run scraped. *)
Theorem reconcile_twice (w1 w2 : world) (scraped : list Product.product)
  (manual : list json) (s0 : state) :
  Forall (fun p => has_manual_true p = true) manual ->
  file s0 = store_of manual ->
  write_failure w1 = None ->
  write_failure w2 = None ->
  (exists merged1 s1 s2,
     reconcile w1 scraped s0 = (Ok merged1, s1) /\
     reconcile w2 scraped s1
       = (Ok (map Existing (map stored_form manual) ++ map Fresh scraped),
          s2) /\
     file s2 =
       store_of (map stored_form manual ++ map product_json scraped) /\
     (Forall (fun p => finite_numbers p = true) manual ->
      file s2 = store_of (manual ++ map product_json scraped))) /\
  (forall configs merged1 s1 r1 merged2 s2,
     runScraper w1 configs s0 = (Ok merged1, s1) ->
     file r1 = file s1 ->
     runScraper w2 configs r1 = (Ok merged2, s2) ->
     exists scraped2 hi st,
       scrape_configs w2 configs [] 1000 r1 = (Ok (scraped2, hi), st) /\
       merged2 =
         map Existing (map stored_form manual) ++ map Fresh scraped2 /\
       file s2 =
         store_of (map stored_form manual ++ map product_json scraped2) /\
       (Forall (fun p => finite_numbers p = true) manual ->
        file s2 = store_of (manual ++ map product_json scraped2))).
Proof.
  intros HM Hf Hw1 Hw2. split.
  - unfold reconcile. unfold bind at 1. rewrite load_existing_run.
    rewrite (merge_and_write_run w1) by trivial.
    eexists _, _, _. split; [reflexivity|].
    unfold bind. rewrite load_existing_run.
    rewrite (merge_and_write_run w2) by trivial.
    cbn [file set_file]. rewrite Hf, (existing_of_manual_store manual HM).
    rewrite (existing_of_merged manual scraped HM), merged_json.
    rewrite map_stored_idempotent.
    split; [reflexivity|]. split; [reflexivity|].
    intros Hfin. now rewrite (stored_form_all_finite manual Hfin).
  - intros configs merged1 s1 r1 merged2 s2 H1 Hr H2.
    pose proof (existing_of_after_run _ _ _ _ _ H1) as He.
    rewrite Hf, (existing_of_manual_store manual HM) in He.
    apply runScraper_inv in H2 as [scraped2 [hi [st [Hsc [-> Hs2]]]]].
    rewrite Hr, He in *. exists scraped2, hi, st.
    rewrite merged_json, map_stored_idempotent in Hs2.
    split; [exact Hsc|]. split; [reflexivity|]. split; [exact Hs2|].
    intros Hfin. now rewrite Hs2, (stored_form_all_finite manual Hfin).
Qed.

Lemma reconcile_twice_witness :
  let scraped := [make_product sample_config
                    "https://www.tallaeyewear.com/collections/sun"
                    sample_item 1000 sample_stamp] in
  exists merged1 s1 s2,
    reconcile (sample_world 0) scraped (start (store_of [manual_record_7]))
      = (Ok merged1, s1) /\
    reconcile (sample_world 0) scraped s1
      = (Ok (map Existing [manual_record_7] ++ map Fresh scraped), s2) /\
    file s2 = store_of ([manual_record_7] ++ map product_json scraped).
Proof.
  intros scraped.
  destruct (reconcile_twice (sample_world 0) (sample_world 0) scraped
              [manual_record_7] (start (store_of [manual_record_7])))
    as [(merged1 & s1 & s2 & H1 & H2 & _ & H3) _].
  - repeat constructor.
  - reflexivity.
  - reflexivity.
  - reflexivity.
  - exists merged1, s1, s2. split; [exact H1|]. split; [exact H2|].
    apply H3. repeat constructor.
Defined.

(** C6 as stated fails: a manual record that holds a number read as
    [Infinity] is written with [null] in its place, so after two
    reconciliations the store is not that record followed by the
    scraped ones. *)
Lemma reconcile_twice_counterexample :
  let scraped := [make_product sample_config
                    "https://www.tallaeyewear.com/collections/sun"
                    sample_item 1000 sample_stamp] in
  exists merged1 s1 merged2 s2,
    has_manual_true manual_record_heavy = true /\
    reconcile (sample_world 0) scraped
      (start (store_of [manual_record_heavy])) = (Ok merged1, s1) /\
    reconcile (sample_world 0) scraped s1 = (Ok merged2, s2) /\
    file s2 <> store_of ([manual_record_heavy] ++ map product_json scraped).
Proof.
  intros scraped. eexists _, _, _, _.
  split; [reflexivity|].
  split; [vm_compute; reflexivity|].
  split; [vm_compute; reflexivity|].
  discriminate.
Qed.

(** C7.  A descriptor with [enabled = false] is skipped: the loop hands
    the list of scraped products, the identifier counter and the state
    to the next descriptor as it received them, so the loop and the
    whole run do exactly what they do when the descriptor is absent. *)
Theorem disabled_descriptor_is_absent (w : world)
  (pre : list Config.config) (config : Config.config)
  (post : list Config.config) (allScraped : list Product.product)
  (idCounter : Z) (s : state) :
  Config.enabled config = false ->
  scrape_configs w (config :: post) allScraped idCounter s =
    scrape_configs w post allScraped idCounter s /\
  scrape_configs w (pre ++ config :: post) allScraped idCounter s =
    scrape_configs w (pre ++ post) allScraped idCounter s /\
  runScraper w (pre ++ config :: post) s = runScraper w (pre ++ post) s.
Proof.
  intros En. split; [|split].
  - apply (scrape_configs_skip w [] config post _ _ _ En).
  - now apply scrape_configs_skip.
  - unfold runScraper, bind.
    destruct (load_existing s) as [[existing|e] s0]; [|reflexivity].
    destruct (launch w s0) as [[u|e] s1]; [|reflexivity].
    now rewrite (scrape_configs_skip w pre config post [] 1000 s1 En).
Qed.

Lemma disabled_descriptor_is_absent_witness :
  Config.enabled (disabled sample_config) = false /\
  runScraper (sample_world 1)
    ([sample_config] ++ disabled sample_config :: [sample_config])
    (start Absent) =
  runScraper (sample_world 1) ([sample_config] ++ [sample_config])
    (start Absent).
Proof.
  split; [reflexivity|].
  apply (disabled_descriptor_is_absent (sample_world 1) [sample_config]
           (disabled sample_config) [sample_config] [] 1000 (start Absent)).
  reflexivity.
Defined.

(** C8.  When a driver call of a page's [try] block throws (navigation
    with its time-out, the waits, the scroll, the extraction), the page
    that was opened is closed again, the list of products and the
    counter are left as they were, and the loop goes on with the
    remaining pages from there.  No such failure aborts the run: as long
    as the driver opens and closes its pages and the store is written,
    every enabled descriptor returns its products to the loop over the
    descriptors, which goes on with the next one, and [runScraper]
    returns. *)
Theorem failed_page_is_skipped (w : world) (config : Config.config)
  (url : string) (rest : list string) (products : list Product.product)
  (idCounter : Z) (s : state) (st : stage) :
  visit w (visits s) url = Page (Fails st) true ->
  (exists p s1,
     newPage w url s = (Ok p, s1) /\
     open_pages s1 = S (open_pages s) /\
     try_catch_finally
       (scrape_page w config url p products idCounter)
       (fun _ => ret (products, idCounter))
       (page_close p) s1 = (Ok (products, idCounter), bump 1 0 s)) /\
  open_pages (bump 1 0 s) = open_pages s /\
  scrape_urls w config (url :: rest) products idCounter s =
    scrape_urls w config rest products idCounter (bump 1 0 s) /\
  (healthy w ->
   (forall next others allScraped startId s0,
      Config.enabled next = true ->
      exists found s1,
        scrapeConfig w next startId s0 = (Ok found, s1) /\
        scrape_configs w (next :: others) allScraped startId s0 =
        scrape_configs w others (allScraped ++ found)
          (startId + Z.of_nat (length found) + 10) s1) /\
   (forall configs s0,
      exists merged s', runScraper w configs s0 = (Ok merged, s'))).
Proof.
  intros V. split; [|split; [reflexivity | split]].
  - unfold newPage. rewrite V. eexists _, _. split; [reflexivity|].
    split; [reflexivity|].
    unfold try_catch_finally, try_catch. now rewrite scrape_page_fails.
  - now apply scrape_urls_failed_page with st.
  - intros Hw. split.
    + intros next others allScraped startId s0 En.
      apply scrape_configs_enabled; [apply Hw | exact En].
    + intros configs s0. now apply runScraper_returns.
Qed.

Lemma failed_page_is_skipped_witness :
  visit (sample_world 1) (visits (start Absent))
    "https://www.tallaeyewear.com/collections/optical"
    = Page (Fails Goto) true /\
  exists p s',
    scrapeConfig (sample_world 1) sample_config 1000 (start Absent)
      = (Ok [p], s') /\
    Product.sourceUrl p
      = "https://www.tallaeyewear.com/collections/sun"%string /\
    open_pages s' = 0%nat.
Proof.
  split; [reflexivity|].
  unfold scrapeConfig. cbn [Config.urls sample_config].
  destruct (failed_page_is_skipped (sample_world 1) sample_config
              "https://www.tallaeyewear.com/collections/optical"
              ["https://www.tallaeyewear.com/collections/sun"%string]
              [] 1000 (start Absent) Goto eq_refl) as (_ & _ & E & _).
  rewrite E. eexists _, _. split; [vm_compute; reflexivity|].
  split; reflexivity.
Defined.

(** C9.  [loadCachedProducts] returns the parsed value when the file is
    there and holds JSON, the empty list when the file is absent, cannot
    be read or cannot be parsed, and throws in no case; it leaves the
    state as it is. *)
Theorem loadCachedProducts_total (s : state) :
  (forall v, file s = Contents (Json v) ->
     loadCachedProducts s = (Ok v, s)) /\
  (file s = Absent \/ file s = Unreadable \/ file s = Contents Garbage ->
     loadCachedProducts s = (Ok (JArr []), s)) /\
  (exists v, loadCachedProducts s = (Ok v, s)).
Proof.
  rewrite loadCachedProducts_run. repeat split.
  - intros v ->. reflexivity.
  - intros [-> | [-> | ->]]; reflexivity.
  - eexists. reflexivity.
Qed.

(** ** Product types *)



(** * Further properties *)

(** ** Shapes *)

Lemma lowered_pair (a b : string) :
  toLowerCase (a ++ " " ++ b) =
  (toLowerCase a ++ String " " (toLowerCase b))%string.
Proof. apply toLowerCase_blank. Qed.

(** A keyword group without blanks is met in [a ++ " " ++ b] exactly when
    it is met in [a] or in [b]. *)
Lemma test_alternatives_pair (words : list string) (a b : string) :
  forallb no_blank words = true ->
  test_alternatives words (toLowerCase (a ++ " " ++ b)) = true <->
  mentions words a \/ mentions words b.
Proof.
  intros Hw. rewrite forallb_forall in Hw. unfold mentions.
  rewrite test_alternatives_spec, lowered_pair. split.
  - intros [k [Hk Hc]]. apply includes_spec in Hc.
    rewrite (includes_across_blank k _ _ (Hw k Hk)) in Hc.
    apply orb_true_iff in Hc as [Hc | Hc]; [left | right];
      exists k; split; trivial; now apply includes_spec.
  - intros [[k [Hk Hc]] | [k [Hk Hc]]]; exists k; split; trivial;
      apply includes_spec; rewrite (includes_across_blank k _ _ (Hw k Hk));
      apply includes_spec in Hc; rewrite Hc;
      [reflexivity | apply orb_true_r].
Qed.

(** X1.  [detectShape] answers by the first keyword group met in the name
    or in the description, in any letter case: the round group (round,
    circle, circular) wins over the aviator group (aviator, pilot,
    teardrop), which wins over the square group (square, rectangular,
    angular); [rect] is returned exactly when no group is met. *)
Theorem detectShape_by_priority (name desc : string) :
  let met words := mentions words name \/ mentions words desc in
  (detectShape name desc = round <-> met round_words) /\
  (detectShape name desc = aviator <->
     ~ met round_words /\ met aviator_words) /\
  (detectShape name desc = square <->
     ~ met round_words /\ ~ met aviator_words /\ met square_words) /\
  (detectShape name desc = rect <->
     ~ met round_words /\ ~ met aviator_words /\ ~ met square_words).
Proof.
  intros met. unfold met, detectShape.
  pose proof (test_alternatives_pair round_words name desc eq_refl) as HR.
  pose proof (test_alternatives_pair aviator_words name desc eq_refl) as HA.
  pose proof (test_alternatives_pair square_words name desc eq_refl) as HS.
  unfold round_words, aviator_words, square_words in *.
  destruct (test_alternatives ["round"; "circle"; "circular"]%string _);
    [ assert (R : mentions ["round"; "circle"; "circular"]%string name \/
                  mentions ["round"; "circle"; "circular"]%string desc)
        by now apply HR
    | assert (R : ~ (mentions ["round"; "circle"; "circular"]%string name \/
                     mentions ["round"; "circle"; "circular"]%string desc))
        by (intros R; apply HR in R; discriminate) ];
  clear HR.
  - repeat split; try tauto; intros; discriminate.
  - destruct (test_alternatives ["aviator"; "pilot"; "teardrop"]%string _);
      [ assert (A : mentions ["aviator"; "pilot"; "teardrop"]%string name \/
                    mentions ["aviator"; "pilot"; "teardrop"]%string desc)
          by now apply HA
      | assert (A : ~ (mentions ["aviator"; "pilot"; "teardrop"]%string name \/
                       mentions ["aviator"; "pilot"; "teardrop"]%string desc))
          by (intros A; apply HA in A; discriminate) ];
    clear HA.
    + repeat split; try tauto; intros; discriminate.
    + destruct (test_alternatives
                  ["square"; "rectangular"; "angular"]%string _);
        [ assert (Q : mentions ["square"; "rectangular"; "angular"]%string
                        name \/
                      mentions ["square"; "rectangular"; "angular"]%string
                        desc)
            by now apply HS
        | assert (Q : ~ (mentions ["square"; "rectangular"; "angular"]%string
                           name \/
                         mentions ["square"; "rectangular"; "angular"]%string
                           desc))
            by (intros Q; apply HS in Q; discriminate) ];
      clear HS; repeat split; try tauto; intros; discriminate.
Qed.

(** ** More on prices *)

Lemma remove_commas_app (a b : string) :
  remove_commas (a ++ b) = (remove_commas a ++ remove_commas b)%string.
Proof.
  induction a as [|c a IH]; [reflexivity|].
  cbn [append remove_commas]. destruct (Ascii.eqb c ","); [exact IH|].
  cbn [append]. now rewrite IH.
Qed.

(** X2.  A comma is dropped wherever it stands, before anything is
    read: the text with a comma between [a] and [b] is parsed as the text
    [a ++ b]; so a decimal comma joins its two sides into one number. *)
Theorem parsePrice_ignores_commas (a b : string) :
  parsePrice (a ++ "," ++ b) = parsePrice (a ++ b) /\
  parsePrice (remove_commas a) = parsePrice a.
Proof.
  unfold parsePrice. split.
  - now rewrite !remove_commas_app.
  - assert (H : forall s, remove_commas (remove_commas s) = remove_commas s).
    { induction s as [|c s IH]; [reflexivity|].
      cbn [remove_commas]. destruct (Ascii.eqb c ",") eqn:E; [exact IH|].
      cbn [remove_commas]. now rewrite E, IH. }
    now rewrite H.
Qed.

Lemma nearest_double_not_NaN (n d : Z) : nearest_double n d <> FNaN.
Proof.
  unfold nearest_double. destruct (n =? 0); [discriminate|].
  match goal with |- context [if ?c then FInf else _] => destruct c end;
    discriminate.
Qed.

Lemma Math_round_NaN (x : float64) : Math_round x = NaN <-> x = FNaN.
Proof.
  destruct x as [| |m e]; cbn [Math_round]; split; try discriminate; trivial.
  destruct (0 <=? e); discriminate.
Qed.

Lemma take_while_digit_first (s : string) :
  first_is is_digit s = false -> take_while is_digit s = EmptyString.
Proof.
  destruct s as [|c s]; [reflexivity|]. cbn [first_is take_while].
  now intros ->.
Qed.

Lemma take_while_digit_empty (s : string) :
  take_while is_digit s = EmptyString -> first_is is_digit s = false.
Proof.
  destruct s as [|c s]; [reflexivity|]. cbn [first_is take_while].
  destruct (is_digit c); [discriminate | reflexivity].
Qed.

Lemma first_digit_of_run (s : string) :
  first_is is_digit (take_while price_char s) = first_is is_digit s.
Proof.
  destruct s as [|c s]; [reflexivity|]. cbn [take_while first_is].
  unfold price_char. destruct (is_digit c) eqn:D; cbn [orb first_is];
    [exact D|].
  destruct (Ascii.eqb c "."); cbn [first_is]; [exact D | reflexivity].
Qed.

(** [parseFloat] on a run of digits and dots is [NaN] exactly when the
    run starts with a dot that no digit follows. *)
Lemma parseFloat_NaN_run (c : ascii) (r : string) :
  price_char c = true ->
  parseFloat (String c r) = FNaN <->
  c = "."%char /\ first_is is_digit r = false.
Proof.
  intros Hc. unfold parseFloat. cbn [take_while drop_while].
  destruct (is_digit c) eqn:D.
  - cbn [String.length Nat.eqb andb]. split.
    + intros H. now apply nearest_double_not_NaN in H.
    + intros [-> _]. discriminate.
  - unfold price_char in Hc. rewrite D in Hc. cbn [orb] in Hc.
    apply Ascii.eqb_eq in Hc. subst c.
    cbn [fraction_digits String.length Nat.eqb andb].
    destruct (take_while is_digit r) as [|d t] eqn:T.
    + cbn [String.length Nat.eqb]. split; [intros _ | reflexivity].
      split; [reflexivity | now apply take_while_digit_empty].
    + cbn [String.length Nat.eqb]. split.
      * intros H. now apply nearest_double_not_NaN in H.
      * intros [_ H]. apply take_while_digit_first in H. congruence.
Qed.

Lemma parse_match_NaN (s : string) :
  match match_price s with
  | Some m => Math_round (parseFloat m)
  | None => Int 0
  end = NaN <->
  exists pre r,
    s = (pre ++ String "." r)%string /\
    has_price_char pre = false /\
    first_is is_digit r = false.
Proof.
  induction s as [|c s IH].
  - cbn [match_price]. split; [discriminate|].
    intros [[|c pre] [r [H _]]]; discriminate.
  - cbn [match_price]. destruct (price_char c) eqn:P.
    + rewrite Math_round_NaN, (parseFloat_NaN_run c _ P), first_digit_of_run.
      split.
      * intros [-> H]. now exists EmptyString, s.
      * intros [[|c' pre] [r [H [Hp Hr]]]].
        -- cbn [append] in H. injection H as -> ->. now split.
        -- cbn [append] in H. injection H as <- _.
           cbn [has_price_char] in Hp. rewrite P in Hp. discriminate.
    + rewrite IH. split.
      * intros [pre [r [-> [Hp Hr]]]]. exists (String c pre), r.
        cbn [append has_price_char]. rewrite P. now split.
      * intros [[|c' pre] [r [H [Hp Hr]]]].
        -- cbn [append] in H. injection H as -> _. discriminate.
        -- cbn [append] in H. injection H as <- ->.
           cbn [has_price_char] in Hp. rewrite P in Hp.
           exists pre, r. now split.
Qed.

(** X3.  [parsePrice] returns [NaN] exactly when, once the commas are
    removed, the first character that is a digit or a dot is a dot and no
    digit follows it at once; a text without any digit or dot gives 0. *)
Theorem parsePrice_NaN_iff (raw : string) :
  (parsePrice raw = NaN <->
   exists pre r,
     remove_commas raw = (pre ++ String "." r)%string /\
     has_price_char pre = false /\
     first_is is_digit r = false) /\
  (has_price_char (remove_commas raw) = false -> parsePrice raw = Int 0).
Proof.
  split; [apply parse_match_NaN|].
  unfold parsePrice. induction (remove_commas raw) as [|c s IH];
    [reflexivity|].
  cbn [has_price_char match_price]. destruct (price_char c);
    [discriminate | exact IH].
Qed.

(** An integer below [2^53] is a double: it is read and rounded to
    itself. *)
Lemma Math_round_integer (n : Z) :
  0 <= n < 2 ^ 53 -> Math_round (nearest_double n 1) = Int n.
Proof.
  intros [H0 H53]. unfold nearest_double.
  destruct (Z.eqb_spec n 0) as [-> | Hn]; [reflexivity|].
  assert (Hpos : 0 < n) by lia.
  pose proof (Z.log2_spec n Hpos) as [Hlo Hhi].
  assert (HL : 0 <= Z.log2 n <= 52).
  { split; [apply Z.log2_nonneg|].
    apply Z.lt_succ_r, (Z.pow_lt_mono_r_iff 2); lia. }
  change (Z.log2 1) with 0. rewrite Z.sub_0_r.
  set (e1 := Z.log2 n - 52).
  assert (He1 : -52 <= e1 <= 0) by (unfold e1; lia).
  assert (Hscaled : 2 ^ 52 <= n * 2 ^ (- e1)).
  { replace (2 ^ 52) with (2 ^ Z.log2 n * 2 ^ (- e1))
      by (rewrite <- Z.pow_add_r by lia; f_equal; unfold e1; lia).
    apply Z.mul_le_mono_nonneg_r; [apply Z.pow_nonneg; lia | exact Hlo]. }
  assert (Hp : 0 < 2 ^ (- e1)) by (apply Z.pow_pos_nonneg; lia).
  destruct (Z.eqb_spec e1 0) as [E0 | E0].
  - rewrite E0 in *. cbn [Z.leb Z.compare Z.opp] in *.
    change (2 ^ 0) with 1 in *. rewrite !Z.mul_1_r, !Z.div_1_r in *.
    destruct (Z.ltb_spec n (2 ^ 52)) as [Hlt | _]; [lia|].
    change (Z.max 0 (-1074)) with 0. cbn [Z.leb Z.compare].
    change (2 ^ 0) with 1. rewrite !Z.mul_1_r, Z.div_1_r, Z.mod_1_r.
    cbn [Z.mul Z.ltb Z.compare andb].
    destruct (Z.leb_spec (2 ^ 1024) n) as [Hbig | _].
    + exfalso. assert (2 ^ 53 < 2 ^ 1024) by (apply Z.pow_lt_mono_r; lia).
      lia.
    + cbn [Math_round Z.leb Z.compare]. change (2 ^ 0) with 1.
      now rewrite Z.mul_1_r.
  - assert (Hneg : e1 < 0) by lia.
    destruct (Z.leb_spec 0 e1) as [Hge | _]; [lia|].
    rewrite Z.div_1_r.
    destruct (Z.ltb_spec (n * 2 ^ (- e1)) (2 ^ 52)) as [Hlt | _]; [lia|].
    rewrite Z.max_l by lia.
    destruct (Z.leb_spec 0 e1) as [Hge | _]; [lia|].
    rewrite Z.div_1_r, Z.mod_1_r. cbn [Z.mul Z.ltb Z.compare andb].
    cbn [Math_round]. destruct (Z.leb_spec 0 e1) as [Hge | _]; [lia|].
    f_equal. replace (1 - e1) with (1 + - e1) by lia.
    rewrite Z.pow_add_r by lia. change (2 ^ 1) with 2.
    replace (2 * (n * 2 ^ (- e1)) + 2 ^ (- e1))
      with ((2 * n + 1) * 2 ^ (- e1)) by ring.
    rewrite Z.div_mul_cancel_r by lia.
    symmetry. apply (Z.div_unique _ _ n 1); lia.
Qed.

Lemma take_while_digits (ds : string) :
  all_digits ds = true -> take_while is_digit ds = ds.
Proof.
  induction ds as [|c ds IH]; [reflexivity|]. cbn [all_digits take_while].
  intros H. apply andb_true_iff in H as [Hc Hds]. now rewrite Hc, IH.
Qed.

Lemma drop_while_digits (ds : string) :
  all_digits ds = true -> drop_while is_digit ds = EmptyString.
Proof.
  induction ds as [|c ds IH]; [reflexivity|]. cbn [all_digits drop_while].
  intros H. apply andb_true_iff in H as [Hc Hds]. now rewrite Hc, IH.
Qed.

Lemma take_while_price_run (ds post : string) :
  all_digits ds = true -> first_is price_char post = false ->
  take_while price_char (ds ++ post) = ds.
Proof.
  intros Hds Hpost. induction ds as [|c ds IH].
  - destruct post as [|c post]; [reflexivity|].
    cbn [append take_while]. cbn [first_is] in Hpost. now rewrite Hpost.
  - cbn [all_digits] in Hds. apply andb_true_iff in Hds as [Hc Hds].
    cbn [append take_while]. unfold price_char at 1. rewrite Hc.
    cbn [orb]. now rewrite IH.
Qed.

Lemma match_price_run (pre ds post : string) :
  has_price_char pre = false -> all_digits ds = true ->
  ds <> EmptyString -> first_is price_char post = false ->
  match_price (pre ++ ds ++ post) = Some ds.
Proof.
  intros Hpre Hds Hne Hpost. induction pre as [|c pre IH].
  - destruct ds as [|c ds]; [now elim Hne|].
    cbn [all_digits] in Hds. apply andb_true_iff in Hds as [Hc Hds].
    cbn [append match_price]. unfold price_char at 1. rewrite Hc.
    cbn [orb]. now rewrite take_while_price_run.
  - cbn [has_price_char] in Hpre. apply orb_false_iff in Hpre as [Hc Hpre].
    cbn [append match_price]. rewrite Hc. now apply IH.
Qed.

Lemma digits_value_all (ds : string) (acc : Z) :
  all_digits ds = true -> 0 <= acc -> 0 <= digits_value acc ds.
Proof.
  intros Hds. rewrite <- (take_while_digits ds Hds).
  apply digits_value_nonneg.
Qed.

(** X4.  When the first run of digits and dots of the text, commas
    removed, is a run of digits that spells an integer below [2^53],
    [parsePrice] returns that integer: whatever stands before the run
    and after it is ignored. *)
Theorem parsePrice_integer (raw pre ds post : string) :
  remove_commas raw = (pre ++ ds ++ post)%string ->
  has_price_char pre = false ->
  all_digits ds = true ->
  ds <> EmptyString ->
  first_is price_char post = false ->
  digits_value 0 ds < 2 ^ 53 ->
  parsePrice raw = Int (digits_value 0 ds).
Proof.
  intros Hraw Hpre Hds Hne Hpost Hlt. unfold parsePrice.
  rewrite Hraw, (match_price_run pre ds post Hpre Hds Hne Hpost).
  unfold parseFloat.
  rewrite (take_while_digits ds Hds), (drop_while_digits ds Hds).
  cbn [fraction_digits String.length digits_value Z.of_nat].
  destruct ds as [|c ds]; [now elim Hne|].
  cbn [String.length Nat.eqb andb]. change (10 ^ 0) with 1.
  apply Math_round_integer. split; [|exact Hlt].
  apply digits_value_all; [exact Hds | lia].
Qed.

Lemma parsePrice_integer_witness :
  parsePrice "Price: $1,299 USD" = Int 1299.
Proof.
  apply (parsePrice_integer "Price: $1,299 USD" "Price: $" "1299" " USD").
  - reflexivity.
  - reflexivity.
  - reflexivity.
  - discriminate.
  - reflexivity.
  - vm_compute. reflexivity.
Defined.

(** ** The fields of a scraped record *)

Lemma or_zero_range (n : number) :
  n = NaN \/ n = Infinity \/ nonneg_integer n ->
  or_zero n = Infinity \/ nonneg_integer (or_zero n).
Proof.
  intros [-> | [-> | [z [-> Hz]]]]; cbn [or_zero].
  - right. exists 0. split; [reflexivity | lia].
  - now left.
  - right. destruct (z =? 0); [exists 0 | exists z]; split; trivial; lia.
Qed.

Lemma from_page_price (config : Config.config) (url : string)
  (p : Product.product) :
  from_page config url p ->
  Product.price p = Infinity \/ nonneg_integer (Product.price p).
Proof.
  intros [item [idc [stamp [_ ->]]]]. cbn [make_product Product.price].
  apply or_zero_range, parsePrice_range.
Qed.

Lemma from_configs_page (configs : list Config.config)
  (p : Product.product) :
  from_configs configs p -> exists config url, from_page config url p.
Proof. intros [config [url [_ [_ [_ H]]]]]. now exists config, url. Qed.

Lemma fresh_of_merged (kept : list json) (scraped : list Product.product) :
  fresh_of (map Existing kept ++ map Fresh scraped) = scraped.
Proof.
  induction kept as [|k kept IH]; cbn [map app fresh_of]; [|exact IH].
  induction scraped as [|p scraped IH]; [reflexivity|].
  cbn [map fresh_of]. now rewrite IH.
Qed.

(** X5.  The price of a scraped record is never [NaN]: it is a
    non-negative integer, or [Infinity] when the digits overflow the
    doubles; so [JSON.stringify] writes it as a non-negative integer or
    as [null].  This holds of every product [scrapeConfig] returns and
    of every product a run of [runScraper] puts in the catalog. *)
Theorem record_price_is_no_NaN (w : world) :
  (forall config startId s out s',
     scrapeConfig w config startId s = (Ok out, s') ->
     Forall (fun p =>
         Product.price p = Infinity \/ nonneg_integer (Product.price p))
       out) /\
  (forall configs s merged s',
     runScraper w configs s = (Ok merged, s') ->
     Forall (fun p =>
         (Product.price p = Infinity \/ nonneg_integer (Product.price p)) /\
         (number_json (Product.price p) = JNull \/
          exists z, number_json (Product.price p) = JNum z /\ 0 <= z))
       (fresh_of merged)).
Proof.
  split.
  - intros config startId s out s' H.
    apply scrape_urls_inv in H as [built [-> [_ Hfrom]]]. cbn [app].
    eapply Forall_impl; [|exact Hfrom].
    intros p [url [_ Hp]]. now apply from_page_price with config url.
  - intros configs s merged s' H.
    apply runScraper_inv in H as [scraped [hi [s1 [Hsc [-> _]]]]].
    rewrite fresh_of_merged.
    apply scrape_configs_inv in Hsc as [built [Hb [_ [_ Hfrom]]]].
    cbn [app] in Hb. subst built.
    eapply Forall_impl; [|exact Hfrom].
    intros p Hp. apply from_configs_page in Hp as [config [url Hp]].
    apply from_page_price in Hp.
    split; [exact Hp|].
    destruct Hp as [-> | [z [-> Hz]]]; [now left | right].
    now exists z.
Qed.

Lemma resolve_image_not_relative (raw : string) :
  startsWith "//" (resolve_image raw) = false.
Proof.
  destruct (startsWith "//" raw) eqn:E.
  - now rewrite resolve_image_protocol_relative.
  - now rewrite resolve_image_other.
Qed.

Lemma resolve_image_absolute (raw : string) :
  is_absolute_url (resolve_image raw) =
  (is_absolute_url raw || startsWith "//" raw)%bool.
Proof.
  destruct (startsWith "//" raw) eqn:E.
  - rewrite resolve_image_protocol_relative by exact E.
    destruct raw as [|c raw]; [discriminate|].
    cbn [startsWith] in E. apply andb_true_iff in E as [E _].
    apply Ascii.eqb_eq in E. subst c. reflexivity.
  - rewrite resolve_image_other by exact E. now rewrite orb_false_r.
Qed.

(** X6.  The image URL of a record is never protocol-relative, and it is
    absolute exactly when the raw URL was absolute or protocol-relative;
    resolving it a second time changes nothing.  In particular no record
    [scrapeConfig] returns has an [imageUrl] that starts with ["//"]. *)
Theorem imageUrl_never_protocol_relative (w : world) :
  (forall raw,
     startsWith "//" (resolve_image raw) = false /\
     is_absolute_url (resolve_image raw) =
       (is_absolute_url raw || startsWith "//" raw)%bool /\
     resolve_image (resolve_image raw) = resolve_image raw) /\
  (forall config startId s out s',
     scrapeConfig w config startId s = (Ok out, s') ->
     Forall (fun p => startsWith "//" (Product.imageUrl p) = false) out).
Proof.
  split.
  - intros raw. split; [apply resolve_image_not_relative|].
    split; [apply resolve_image_absolute|].
    apply resolve_image_other, resolve_image_not_relative.
  - intros config startId s out s' H.
    apply scrape_urls_inv in H as [built [-> [_ Hfrom]]]. cbn [app].
    eapply Forall_impl; [|exact Hfrom].
    intros p [url [_ [item [idc [stamp [_ ->]]]]]].
    cbn [make_product Product.imageUrl]. apply resolve_image_not_relative.
Qed.



(** The records a page adds are built from its items with a name, one
    for one and in order. *)
Lemma page_products_items (w : world) (config : Config.config)
  (url : string) (items : list Item.item) (idCounter : Z) (tick : nat) :
  Forall2 (fun item p =>
      exists idc stamp, p = make_product config url item idc stamp)
    (filter (fun item => truthy (Item.rawName item)) items)
    (page_products w config url items idCounter tick).
Proof.
  revert idCounter tick.
  induction items as [|item rest IH]; intros idCounter tick; [constructor|].
  cbn [filter page_products].
  destruct (truthy (Item.rawName item)); cbn [negb]; [|apply IH].
  constructor; [|apply IH]. now exists idCounter, (clock w tick).
Qed.


(** X8.  The swatch of a record is the entry of [COLOR_HEX_MAP] for its
    color; the table has an entry for each of the five colors and no two
    colors share one.  In the item loop of a page, the record built for
    an item has the color [Black] when the item has no color text and
    what [normalizeColor] makes of that text otherwise. *)
Theorem record_color_and_swatch (w : world) (config : Config.config) :
  (forall c1 c2, COLOR_HEX_MAP c1 = COLOR_HEX_MAP c2 -> c1 = c2) /\
  (forall startId s out s',
     scrapeConfig w config startId s = (Ok out, s') ->
     Forall (fun p =>
         COLOR_HEX_MAP (Product.color p) = Some (Product.imageColor p))
       out) /\
  (forall url items products idCounter s,
     exists built idCounter' s',
       scrape_items w config url items products idCounter s
         = (Ok (products ++ built, idCounter'), s') /\
       Forall2 (fun item p =>
           (Item.rawColor item = EmptyString -> Product.color p = Black) /\
           (Item.rawColor item <> EmptyString ->
            Product.color p = normalizeColor (Item.rawColor item)) /\
           COLOR_HEX_MAP (Product.color p) = Some (Product.imageColor p))
         (filter (fun item => truthy (Item.rawName item)) items) built).
Proof.
  assert (Hhex : forall item,
             COLOR_HEX_MAP
               (if truthy (Item.rawColor item)
                then normalizeColor (Item.rawColor item) else Black) =
             Some match COLOR_HEX_MAP
                          (if truthy (Item.rawColor item)
                           then normalizeColor (Item.rawColor item)
                           else Black) with
                  | Some hex => or_else hex "#2C2C2C"
                  | None => "#2C2C2C"%string
                  end).
  { intros item.
    destruct (if truthy (Item.rawColor item)
              then normalizeColor (Item.rawColor item) else Black);
      reflexivity. }
  split; [|split].
  - intros [] []; cbn [COLOR_HEX_MAP]; intros E;
      try reflexivity; discriminate.
  - intros startId s out s' H.
    apply scrape_urls_inv in H as [built [-> [_ Hfrom]]]. cbn [app].
    eapply Forall_impl; [|exact Hfrom].
    intros p [url [_ [item [idc [stamp [_ ->]]]]]].
    cbn [make_product Product.color Product.imageColor]. apply Hhex.
  - intros url items products idCounter s.
    eexists _, _, _. split; [apply scrape_items_run|].
    eapply Forall2_impl; [|apply page_products_items].
    cbv beta. intros item p [idc [stamp ->]].
    cbn [make_product Product.color Product.imageColor].
    split; [|split; [|apply Hhex]]; unfold truthy;
      destruct (String.eqb_spec (Item.rawColor item) EmptyString) as [E | E];
      cbn [negb]; intros E'; congruence.
Qed.

(** ** The item loop of a page *)

Lemma page_products_names (w : world) (config : Config.config)
  (url : string) (items : list Item.item) (idCounter : Z) (tick : nat) :
  map Product.name (page_products w config url items idCounter tick) =
  filter truthy (map Item.rawName items).
Proof.
  revert idCounter tick.
  induction items as [|item rest IH]; intros idCounter tick; [reflexivity|].
  cbn [page_products map filter].
  destruct (truthy (Item.rawName item)); cbn [negb map]; now rewrite IH.
Qed.

Lemma page_products_stamps (w : world) (config : Config.config)
  (url : string) (items : list Item.item) (idCounter : Z) (tick : nat) :
  map Product.scrapedAt (page_products w config url items idCounter tick) =
  map (clock w)
    (seq tick (length (page_products w config url items idCounter tick))).
Proof.
  revert idCounter tick.
  induction items as [|item rest IH]; intros idCounter tick; [reflexivity|].
  cbn [page_products].
  destruct (negb (truthy (Item.rawName item))); [apply IH|].
  cbn [map length seq]. now rewrite IH.
Qed.

(** X9.  The item loop of a page never throws.  It appends one record
    per item whose name is not empty, in the order of the items, with the
    names as extracted; the records take consecutive identifiers from
    the counter on, which ends advanced by their number; and the clock
    is read once per record, in order. *)
Theorem item_loop_description (w : world) (config : Config.config)
  (url : string) (items : list Item.item) (products : list Product.product)
  (idCounter : Z) (s : state) :
  exists built,
    scrape_items w config url items products idCounter s =
      (Ok (products ++ built, idCounter + Z.of_nat (length built)),
       bump 0 (length built) s) /\
    map Product.name built = filter truthy (map Item.rawName items) /\
    map Product.id built = zseq idCounter (length built) /\
    map Product.scrapedAt built =
      map (clock w) (seq (ticks s) (length built)).
Proof.
  exists (page_products w config url items idCounter (ticks s)).
  split; [apply scrape_items_run|].
  split; [apply page_products_names|].
  split; [apply page_products_ids | apply page_products_stamps].
Qed.

(** ** Pages opened and closed *)

Lemma bump_bump (a b c d : nat) (s : state) :
  bump a b (bump c d s) = bump (a + c) (b + d) s.
Proof. unfold bump. cbn [visits ticks open_pages file]. f_equal; lia. Qed.

Lemma scrape_urls_state (w : world) (config : Config.config)
  (urls : list string) (products : list Product.product) (idCounter : Z)
  (s : state) (out : list Product.product) (s' : state) :
  scrape_urls w config urls products idCounter s = (Ok out, s') ->
  exists built,
    out = products ++ built /\
    s' = bump (length urls) (length built) s.
Proof.
  revert products idCounter s.
  induction urls as [|url rest IH]; intros products idCounter s H.
  - injection H as <- <-. exists []. now rewrite app_nil_r, bump_zero.
  - destruct (visit w (visits s) url) as [|body [|]] eqn:V.
    + destruct (scrape_urls_page_lost w config url rest products idCounter s
                  (or_introl V)) as [s0 E].
      rewrite E in H. discriminate.
    + destruct body as [st|items].
      * rewrite (scrape_urls_failed_page _ _ _ _ _ _ _ _ V) in H.
        apply IH in H as [built [-> ->]]. exists built.
        split; [reflexivity|]. rewrite bump_bump. cbn [length].
        f_equal; lia.
      * rewrite (scrape_urls_extracted_page _ _ _ _ _ _ _ _ V) in H.
        cbv zeta in H. apply IH in H as [built [-> ->]].
        exists (page_products w config url items idCounter (ticks s) ++ built).
        rewrite app_assoc. split; [reflexivity|].
        rewrite bump_bump, length_app. cbn [length]. f_equal; lia.
    + destruct (scrape_urls_page_lost w config url rest products idCounter s)
        as [s0 E]; [right; now exists body|].
      rewrite E in H. discriminate.
Qed.

(** X10.  When [scrapeConfig] returns, its records carry the consecutive
    identifiers [startId], [startId + 1], ... in order; one page was
    opened per listing URL and each was closed again, so no page is left
    open; the clock was read once per record; and the store was not
    touched. *)
Theorem scrapeConfig_ids_and_pages (w : world) (config : Config.config)
  (startId : Z) (s : state) (out : list Product.product) (s' : state) :
  scrapeConfig w config startId s = (Ok out, s') ->
  map Product.id out = zseq startId (length out) /\
  visits s' = (length (Config.urls config) + visits s)%nat /\
  open_pages s' = open_pages s /\
  ticks s' = (length out + ticks s)%nat /\
  file s' = file s.
Proof.
  intros H. unfold scrapeConfig in H.
  destruct (scrape_urls_inv _ _ _ _ _ _ _ _ H) as [built [-> [Hids _]]].
  destruct (scrape_urls_state _ _ _ _ _ _ _ _ H) as [built' [E ->]].
  apply app_inv_head in E. subst built'. cbn [app].
  split; [exact Hids|]. repeat split.
Qed.

Lemma scrapeConfig_ids_and_pages_witness :
  exists out s',
    scrapeConfig (sample_world 1) sample_config 1000 (start Absent)
      = (Ok out, s') /\
    map Product.id out = zseq 1000 (length out) /\
    open_pages s' = 0%nat.
Proof.
  destruct (scrapeConfig (sample_world 1) sample_config 1000 (start Absent))
    as [[out|e] s'] eqn:H; [|vm_compute in H; discriminate].
  exists out, s'. split; [reflexivity|].
  destruct (scrapeConfig_ids_and_pages _ _ _ _ _ _ H)
    as (Hids & _ & Hopen & _).
  split; [exact Hids | exact Hopen].
Defined.

(** ** The identifier counter of a run *)

Lemma scrape_configs_counter (w : world) (configs : list Config.config)
  (allScraped : list Product.product) (idCounter : Z) (s : state)
  (out : list Product.product) (idCounter' : Z) (s' : state) :
  scrape_configs w configs allScraped idCounter s
    = (Ok (out, idCounter'), s') ->
  idCounter' =
    idCounter + (Z.of_nat (length out) - Z.of_nat (length allScraped))
    + 10 * Z.of_nat (length (filter Config.enabled configs)).
Proof.
  revert allScraped idCounter s.
  induction configs as [|config rest IH]; intros allScraped idCounter s H.
  - injection H as <- <- _. cbn [filter length]. lia.
  - cbn [scrape_configs] in H. cbn [filter].
    destruct (Config.enabled config); cbn [negb] in H.
    + unfold bind at 1 in H.
      destruct (scrapeConfig w config idCounter s) as [[products|e] s1];
        [|discriminate].
      apply IH in H. rewrite H, length_app. cbn [length]. lia.
    + now apply IH in H.
Qed.

(** X11.  The loop over the descriptors ends with the counter advanced
    by the number of records it added plus 10 for each enabled
    descriptor; so in the catalog of a run that scraped [n] records from
    [k] enabled descriptors, every scraped identifier lies from 1000 up
    to, and not including, [1000 + n + 10 * k]. *)
Theorem scraped_ids_range (w : world) (configs : list Config.config) :
  (forall allScraped idCounter s out idCounter' s',
     scrape_configs w configs allScraped idCounter s
       = (Ok (out, idCounter'), s') ->
     idCounter' =
       idCounter + (Z.of_nat (length out) - Z.of_nat (length allScraped))
       + 10 * Z.of_nat (length (filter Config.enabled configs))) /\
  (forall s merged s',
     runScraper w configs s = (Ok merged, s') ->
     Forall (fun p =>
         1000 <= Product.id p <
         1000 + Z.of_nat (length (fresh_of merged))
         + 10 * Z.of_nat (length (filter Config.enabled configs)))
       (fresh_of merged)).
Proof.
  split; [intros; now apply scrape_configs_counter with w s s'|].
  intros s merged s' H.
  apply runScraper_inv in H as [scraped [hi [s1 [Hsc [-> _]]]]].
  rewrite fresh_of_merged.
  pose proof (scrape_configs_counter _ _ _ _ _ _ _ _ Hsc) as Hhi.
  apply scrape_configs_inv in Hsc as [built [Hb [_ [[_ Hrange] _]]]].
  cbn [app] in Hb. subst built. cbn [length] in Hhi.
  rewrite Forall_map in Hrange.
  eapply Forall_impl; [|exact Hrange]. cbv beta. intros p Hp. lia.
Qed.

(** ** The crawl and the store *)

Lemma set_file_same (s : state) : set_file (file s) s = s.
Proof. destruct s; reflexivity. Qed.

Lemma file_blind_frame {A : Type} (c : M A) (s : state) :
  file_blind c -> file (snd (c s)) = file s.
Proof.
  intros Hc. specialize (Hc (file s) s). rewrite set_file_same in Hc.
  destruct (c s) as [r s1]. cbn [fst snd] in *.
  injection Hc as Hc. now rewrite Hc at 1.
Qed.

Lemma file_blind_ret {A : Type} (a : A) : file_blind (ret a).
Proof. intros f s. reflexivity. Qed.

Lemma file_blind_throw {A : Type} (e : exn) : file_blind (@throw A e).
Proof. intros f s. reflexivity. Qed.

Lemma file_blind_bind {A B : Type} (c : M A) (k : A -> M B) :
  file_blind c -> (forall a, file_blind (k a)) -> file_blind (bind c k).
Proof.
  intros Hc Hk f s. unfold bind. rewrite Hc.
  destruct (c s) as [[a|e] s1]; cbn [fst snd]; [apply Hk | reflexivity].
Qed.

Lemma file_blind_try_catch_finally {A : Type} (body : M A)
  (handler : exn -> M A) (final : M unit) :
  file_blind body -> (forall e, file_blind (handler e)) ->
  file_blind final ->
  file_blind (try_catch_finally body handler final).
Proof.
  intros Hb Hh Hf f s. unfold try_catch_finally, try_catch. rewrite Hb.
  destruct (body s) as [[a|e] s1]; cbn [fst snd].
  - rewrite Hf. destruct (final s1) as [[u|e] s2]; reflexivity.
  - rewrite Hh. destruct (handler e s1) as [r s2]. cbn [fst snd].
    rewrite Hf. destruct (final s2) as [[u|e'] s3]; reflexivity.
Qed.

Lemma file_blind_newPage (w : world) (url : string) :
  file_blind (newPage w url).
Proof.
  intros f s. unfold newPage, set_file. cbn [visits ticks open_pages file].
  destruct (visit w (visits s) url); reflexivity.
Qed.

Lemma file_blind_page_close (p : page) : file_blind (page_close p).
Proof. intros f s. unfold page_close. destruct (page_closes p); reflexivity. Qed.

Lemma file_blind_driver_call (p : page) (st : stage) :
  file_blind (driver_call p st).
Proof.
  unfold driver_call. destruct (page_body p) as [st'|items];
    [destruct (stage_eqb st st')|];
    first [apply file_blind_ret | apply file_blind_throw].
Qed.

Lemma file_blind_scrape_items (w : world) (config : Config.config)
  (url : string) (items : list Item.item) (products : list Product.product)
  (idCounter : Z) :
  file_blind (scrape_items w config url items products idCounter).
Proof.
  intros f s. rewrite !scrape_items_run. reflexivity.
Qed.

Lemma file_blind_scrape_page (w : world) (config : Config.config)
  (url : string) (p : page) (products : list Product.product)
  (idCounter : Z) :
  file_blind (scrape_page w config url p products idCounter).
Proof.
  unfold scrape_page.
  repeat (apply file_blind_bind; [apply file_blind_driver_call | intros _]).
  apply file_blind_bind.
  - unfold evaluate_items. destruct (page_body p);
      [apply file_blind_throw | apply file_blind_ret].
  - intros items. apply file_blind_scrape_items.
Qed.

Lemma file_blind_scrape_urls (w : world) (config : Config.config)
  (urls : list string) (products : list Product.product) (idCounter : Z) :
  file_blind (scrape_urls w config urls products idCounter).
Proof.
  revert products idCounter.
  induction urls as [|url rest IH]; intros products idCounter;
    [apply file_blind_ret|].
  cbn [scrape_urls]. apply file_blind_bind; [apply file_blind_newPage|].
  intros p. apply file_blind_bind; [|intros r; apply IH].
  apply file_blind_try_catch_finally.
  - apply file_blind_scrape_page.
  - intros e. apply file_blind_ret.
  - apply file_blind_page_close.
Qed.

Lemma file_blind_scrape_configs (w : world) (configs : list Config.config)
  (allScraped : list Product.product) (idCounter : Z) :
  file_blind (scrape_configs w configs allScraped idCounter).
Proof.
  revert allScraped idCounter.
  induction configs as [|config rest IH]; intros allScraped idCounter;
    [apply file_blind_ret|].
  cbn [scrape_configs]. destruct (negb (Config.enabled config)); [apply IH|].
  apply file_blind_bind; [apply file_blind_scrape_urls|].
  intros products. apply IH.
Qed.

(** What a run does, step by step: it returns exactly when the browser
    is launched, the crawl returns, the browser is closed and the store
    is written. *)
Lemma runScraper_exact (w : world) (configs : list Config.config)
  (s : state) (merged : list entry) (s' : state) :
  runScraper w configs s = (Ok merged, s') <->
  launches w = true /\ browser_closes w = true /\ write_failure w = None /\
  exists scraped hi s1,
    scrape_configs w configs [] 1000 s = (Ok (scraped, hi), s1) /\
    merged = map Existing (existing_of (file s)) ++ map Fresh scraped /\
    s' = set_file (store_of (map entry_json merged)) s1.
Proof.
  unfold runScraper. unfold bind at 1. rewrite load_existing_run.
  unfold bind at 1. unfold launch.
  destruct (launches w);
    [|split; [discriminate | intros [H _]; discriminate]].
  cbn [ret]. unfold bind at 1.
  destruct (scrape_configs w configs [] 1000 s)
    as [[[scraped hi]|e] s1].
  - unfold bind at 1. unfold browser_close.
    destruct (browser_closes w);
      [|split; [discriminate | intros [_ [H _]]; discriminate]].
    cbn [ret fst]. unfold merge_and_write, bind, writeFileSync.
    destruct (write_failure w);
      [split; [discriminate | intros [_ [_ [H _]]]; discriminate]|].
    split.
    + intros H. injection H as <- <-. repeat split.
      now exists scraped, hi, s1.
    + intros (_ & _ & _ & sc & hi' & s2 & E & -> & ->).
      injection E as <- _ <-. reflexivity.
  - split; [discriminate|].
    intros (_ & _ & _ & sc & hi' & s2 & E & _). discriminate.
Qed.

(** X12.  The crawl neither reads nor writes the store: with another file
    on disk the loop over the descriptors returns the same records and
    counter, or throws alike.  So whether a run of [runScraper] completes
    does not depend on the store it starts from, and two runs in the same
    environment from different stores scrape the same records, with the
    same identifiers. *)
Theorem crawl_ignores_store (w : world) (configs : list Config.config) :
  (forall allScraped idCounter f s,
     scrape_configs w configs allScraped idCounter (set_file f s) =
     (fst (scrape_configs w configs allScraped idCounter s),
      set_file f (snd (scrape_configs w configs allScraped idCounter s)))) /\
  (forall f1 f2 merged1 s1,
     runScraper w configs (start f1) = (Ok merged1, s1) ->
     exists merged2 s2,
       runScraper w configs (start f2) = (Ok merged2, s2) /\
       fresh_of merged2 = fresh_of merged1).
Proof.
  split; [intros; apply file_blind_scrape_configs|].
  intros f1 f2 merged1 s1 H.
  apply runScraper_exact in H
    as (Hl & Hc & Hw & scraped & hi & s0 & Hsc & -> & _).
  pose proof (file_blind_scrape_configs w configs [] 1000 f2 (start f1)) as Hb.
  rewrite Hsc in Hb. cbn [fst snd] in Hb.
  eexists _, _. split.
  - apply runScraper_exact. repeat split; trivial.
    exists scraped, hi, (set_file f2 s0). split; [exact Hb|].
    split; reflexivity.
  - now rewrite !fresh_of_merged.
Qed.

(** X13.  A run that throws has not written the store, unless the throw
    is the one of the write itself: the file is left as it was whenever
    the launch, a page, or the closing of the browser fails, and the
    records scraped so far are dropped with the run. *)
Theorem failed_run_keeps_store (w : world) (configs : list Config.config)
  (s : state) (e : exn) (s' : state) :
  runScraper w configs s = (Throw e, s') ->
  file s' = file s \/
  (e = FsError /\ write_failure w = Some (file s')).
Proof.
  unfold runScraper. unfold bind at 1. rewrite load_existing_run.
  unfold bind at 1. unfold launch. destruct (launches w).
  - cbn [ret]. unfold bind at 1.
    pose proof (file_blind_frame _ s
                  (file_blind_scrape_configs w configs [] 1000)) as Hf.
    destruct (scrape_configs w configs [] 1000 s)
      as [[[scraped hi]|e0] s1]; cbn [snd] in Hf.
    + unfold bind at 1. unfold browser_close. destruct (browser_closes w).
      * cbn [ret fst]. unfold merge_and_write, bind, writeFileSync.
        destruct (write_failure w) as [remains|]; [|discriminate].
        intros H. injection H as <- <-. right. now split.
      * intros H. injection H as _ <-. now left.
    + intros H. injection H as _ <-. now left.
  - intros H. injection H as _ <-. now left.
Qed.

Lemma failed_run_keeps_store_witness :
  let w := {| launches := true;
              visit := fun _ _ => NewPageThrows;
              clock := fun _ => sample_stamp;
              browser_closes := true;
              write_failure := None |} in
  exists e s',
    runScraper w [sample_config] (start (store_of [manual_record_7]))
      = (Throw e, s') /\
    file s' = store_of [manual_record_7].
Proof.
  intros w.
  destruct (runScraper w [sample_config] (start (store_of [manual_record_7])))
    as [[merged|e] s'] eqn:H; [vm_compute in H; discriminate|].
  exists e, s'. split; [reflexivity|].
  destruct (failed_run_keeps_store _ _ _ _ _ H) as [Hf | [_ Hw]];
    [exact Hf | discriminate].
Defined.

(** X14.  After a completed run [loadCachedProducts] returns the array
    the run wrote: each kept record in its stored form (a number that
    is not finite as [null], the negative zero as [0]; the record itself
    when it holds neither), followed by the JSON form of each scraped
    record of the returned catalog, in order.  What is loaded is written
    back as it is. *)
Theorem written_store_is_loaded (w : world) (configs : list Config.config)
  (s : state) (merged : list entry) (s' : state) :
  runScraper w configs s = (Ok merged, s') ->
  loadCachedProducts s' = (Ok (JArr (map entry_json merged)), s') /\
  map entry_json merged =
    map stored_form (existing_of (file s))
    ++ map product_json (fresh_of merged) /\
  (Forall (fun p => finite_numbers p = true) (existing_of (file s)) ->
   map entry_json merged =
     existing_of (file s) ++ map product_json (fresh_of merged)) /\
  map stored_form (map entry_json merged) = map entry_json merged.
Proof.
  intros H. apply runScraper_inv in H as [scraped [hi [s1 [_ [-> Hf]]]]].
  rewrite loadCachedProducts_run, Hf, fresh_of_merged, merged_json.
  split; [reflexivity|]. split; [reflexivity|]. split.
  - intros Hfin. now rewrite (stored_form_all_finite _ Hfin).
  - rewrite map_app, map_stored_idempotent. f_equal.
    rewrite map_map. apply map_ext. intros p. apply stored_form_product.
Qed.

Lemma written_store_is_loaded_witness :
  exists merged s',
    runScraper (sample_world 0) [sample_config]
      (start (store_of [manual_record_heavy])) = (Ok merged, s') /\
    loadCachedProducts s' = (Ok (JArr (map entry_json merged)), s').
Proof.
  destruct (runScraper (sample_world 0) [sample_config]
              (start (store_of [manual_record_heavy])))
    as [[merged|e] s'] eqn:H; [|vm_compute in H; discriminate].
  exists merged, s'. split; [reflexivity|].
  exact (proj1 (written_store_is_loaded _ _ _ _ _ H)).
Defined.

(** ** Runs in sequence *)

Lemma merged_store_no_null (kept : list json)
  (scraped : list Product.product) :
  Forall (fun p => has_manual_true p = true) kept ->
  ~ In JNull (map stored_form kept ++ map product_json scraped).
Proof.
  intros Hk Hin. apply stored_all_manual in Hk.
  apply in_app_or in Hin as [Hin | Hin].
  - rewrite Forall_forall in Hk. specialize (Hk _ Hin). discriminate.
  - apply in_map_iff in Hin as [p [Hp _]]. discriminate.
Qed.

(** X15.  When a run completes after any sequence of completed runs, the
    store it leaves is an array without [null] entry: the records kept
    from the store the sequence started with, in their stored form,
    followed by the records this last run scraped.  The records a later
    run keeps from it are those stored forms; they are the records kept
    from the first store themselves when these hold no number that is
    not finite and no negative zero. *)
Theorem store_after_runs (configs : list Config.config) (f : cache_file)
  (w : world) (s : state) (merged : list entry) (s' : state) :
  after_runs configs f (file s) ->
  runScraper w configs s = (Ok merged, s') ->
  file s' =
    store_of (map stored_form (existing_of f)
              ++ map product_json (fresh_of merged)) /\
  ~ In JNull (elements_of (file s')) /\
  existing_of (file s') = map stored_form (existing_of f) /\
  (Forall (fun p => finite_numbers p = true) (existing_of f) ->
   existing_of (file s') = existing_of f).
Proof.
  intros Hruns H.
  assert (Hk : map stored_form (existing_of (file s)) =
               map stored_form (existing_of f)).
  { apply existing_of_after_runs in Hruns as [-> | ->];
      [reflexivity | apply map_stored_idempotent]. }
  pose proof (existing_of_after_run _ _ _ _ _ H) as He. rewrite Hk in He.
  apply runScraper_inv in H as [scraped [hi [s1 [_ [-> Hf]]]]].
  rewrite merged_json, Hk in Hf. rewrite fresh_of_merged.
  split; [exact Hf|]. split.
  - rewrite Hf. cbn [elements_of store_of].
    apply merged_store_no_null, existing_of_manual.
  - split; [exact He|].
    intros Hfin. now rewrite He, (stored_form_all_finite _ Hfin).
Qed.

Lemma store_after_runs_witness :
  exists merged1 s1 merged2 s2,
    runScraper (sample_world 0) [sample_config]
      (start (store_of [manual_record_heavy; stale_record]))
      = (Ok merged1, s1) /\
    runScraper (sample_world 1) [sample_config] (start (file s1))
      = (Ok merged2, s2) /\
    existing_of (file s2) = [stored_form manual_record_heavy].
Proof.
  destruct (runScraper (sample_world 0) [sample_config]
              (start (store_of [manual_record_heavy; stale_record])))
    as [[merged1|e] s1] eqn:H1; [|vm_compute in H1; discriminate].
  destruct (runScraper (sample_world 1) [sample_config] (start (file s1)))
    as [[merged2|e] s2] eqn:H2.
  - exists merged1, s1, merged2, s2.
    split; [reflexivity|]. split; [exact H2|].
    assert (Hruns : after_runs [sample_config]
                      (store_of [manual_record_heavy; stale_record])
                      (file (start (file s1)))).
    { eapply runs_more; [| exact H1 | apply runs_none]. reflexivity. }
    destruct (store_after_runs _ _ _ _ _ _ Hruns H2) as (_ & _ & He & _).
    rewrite He. reflexivity.
  - exfalso. destruct (runScraper_returns (sample_world 1) [sample_config]
                         (start (file s1))) as [m [s3 E]].
    + repeat split. intros n url. cbn [sample_world visit].
      destruct (Nat.eqb n 1); eexists; reflexivity.
    + rewrite E in H2. discriminate.
Defined.

Lemma scrape_configs_all_disabled (w : world)
  (configs : list Config.config) (allScraped : list Product.product)
  (idCounter : Z) (s : state) :
  Forall (fun config => Config.enabled config = false) configs ->
  scrape_configs w configs allScraped idCounter s
    = (Ok (allScraped, idCounter), s).
Proof.
  induction 1 as [|config rest En _ IH]; [reflexivity|].
  cbn [scrape_configs]. now rewrite En.
Qed.

(** X16.  With no enabled descriptor (an empty configuration, or every
    descriptor switched off) a run opens no page and reads no clock; it
    returns the kept manual records alone and rewrites the store with
    them (in their stored form, which is the records themselves when
    they hold no number that is not finite and no negative zero), so
    the records of an earlier scrape are gone. *)
Theorem run_without_descriptors (w : world) (configs : list Config.config)
  (s : state) :
  Forall (fun config => Config.enabled config = false) configs ->
  launches w = true ->
  browser_closes w = true ->
  write_failure w = None ->
  runScraper w configs s =
    (Ok (map Existing (existing_of (file s))),
     set_file (store_of (map stored_form (existing_of (file s)))) s) /\
  (Forall (fun p => finite_numbers p = true) (existing_of (file s)) ->
   runScraper w configs s =
     (Ok (map Existing (existing_of (file s))),
      set_file (store_of (existing_of (file s))) s)).
Proof.
  intros Hd Hl Hc Hw.
  assert (H : runScraper w configs s =
              (Ok (map Existing (existing_of (file s))),
               set_file (store_of (map stored_form (existing_of (file s))))
                 s)).
  { apply runScraper_exact. repeat split; trivial.
    exists [], 1000, s.
    split; [now apply scrape_configs_all_disabled|].
    cbn [map]. rewrite app_nil_r. split; [reflexivity|].
    now rewrite map_map. }
  split; [exact H|].
  intros Hfin. now rewrite H, (stored_form_all_finite _ Hfin).
Qed.

Lemma run_without_descriptors_witness :
  runScraper (sample_world 0) [disabled sample_config]
    (start (store_of [manual_record_7; stale_record])) =
  (Ok [Existing manual_record_7],
   set_file (store_of [manual_record_7])
     (start (store_of [manual_record_7; stale_record]))).
Proof.
  apply (run_without_descriptors (sample_world 0) [disabled sample_config]
           (start (store_of [manual_record_7; stale_record]))).
  - repeat constructor.
  - reflexivity.
  - reflexivity.
  - reflexivity.
  - repeat constructor.
Defined.

(** X17.  Running again in the same environment is a fixed point: from
    the store a completed run left, the same run ends in the same state,
    store included, and returns the same scraped records, with the
    identifiers they had (the counter starts at 1000 whatever the store
    holds), after the same kept records read back from the store: the
    catalog is written as the first one was, and it is the first
    catalog itself when the kept records hold no number that is not
    finite and no negative zero. *)
Theorem rerun_is_fixed_point (w : world) (configs : list Config.config)
  (f : cache_file) (merged : list entry) (s1 : state) :
  runScraper w configs (start f) = (Ok merged, s1) ->
  exists merged2,
    runScraper w configs (start (file s1)) = (Ok merged2, s1) /\
    fresh_of merged2 = fresh_of merged /\
    map entry_json merged2 = map entry_json merged /\
    (Forall (fun p => finite_numbers p = true) (existing_of f) ->
     merged2 = merged).
Proof.
  intros H. apply runScraper_exact in H
    as (Hl & Hc & Hw & scraped & hi & s0 & Hsc & -> & ->).
  cbn [file set_file start].
  pose proof (existing_of_merged (existing_of f) scraped
                (existing_of_manual f)) as He.
  set (stored := store_of
         (map entry_json (map Existing (existing_of f) ++ map Fresh scraped)))
    in *.
  assert (Hj : map entry_json
                 (map Existing (map stored_form (existing_of f))
                  ++ map Fresh scraped) =
               map entry_json
                 (map Existing (existing_of f) ++ map Fresh scraped))
    by now rewrite !merged_json, map_stored_idempotent.
  exists (map Existing (map stored_form (existing_of f)) ++ map Fresh scraped).
  split; [|split; [now rewrite !fresh_of_merged | split; [exact Hj|]]].
  - apply runScraper_exact. repeat split; trivial.
    exists scraped, hi, (set_file stored s0). split.
    + pose proof (file_blind_scrape_configs w configs [] 1000 stored
                    (start f)) as Hb.
      rewrite Hsc in Hb. exact Hb.
    + cbn [file start]. rewrite He. split; [reflexivity|].
      rewrite Hj. reflexivity.
  - intros Hfin. now rewrite (stored_form_all_finite _ Hfin).
Qed.

Lemma rerun_is_fixed_point_witness :
  exists merged s1 merged2,
    runScraper (sample_world 0) [sample_config]
      (start (store_of [manual_record_heavy])) = (Ok merged, s1) /\
    runScraper (sample_world 0) [sample_config] (start (file s1))
      = (Ok merged2, s1) /\
    fresh_of merged2 = fresh_of merged.
Proof.
  destruct (runScraper (sample_world 0) [sample_config]
              (start (store_of [manual_record_heavy])))
    as [[merged|e] s1] eqn:H; [|vm_compute in H; discriminate].
  destruct (rerun_is_fixed_point _ _ _ _ _ H) as (merged2 & H2 & Hf & _).
  exists merged, s1, merged2. split; [reflexivity|].
  split; [exact H2 | exact Hf].
Defined.

(** ** The color table *)

Lemma lower_char_idempotent (c : ascii) :
  lower_char (lower_char c) = lower_char c.
Proof. destruct c as [[] [] [] [] [] [] [] []]; reflexivity. Qed.

(** With bytes held back, a text that does not continue them is lowered
    as if read afresh, after the bytes held back. *)
Lemma lower_from_pending (st : pending) (z : string) :
  safe_head z = true ->
  lower_from st z = (pending_bytes st ++ lower_from Idle z)%string.
Proof.
  destruct z as [|d z]; [destruct st; reflexivity|].
  cbn [safe_head]. intros H. apply negb_true_iff in H.
  apply orb_false_iff in H as [H H176].
  apply orb_false_iff in H as [H132 H170].
  destruct st; cbn [lower_from lower_step pending_bytes];
    rewrite ?H132, ?H170, ?H176; cbn [flush_step fst snd];
    try reflexivity; now rewrite append_assoc.
Qed.

(** What a step puts out is read back as it is. *)
Lemma lower_step_closed (st : pending) (c : ascii) (z : string) :
  snd (lower_step st c) = Idle \/ safe_head z = true ->
  lower_from Idle (fst (lower_step st c) ++ z) =
  (fst (lower_step st c) ++ lower_from Idle z)%string.
Proof.
  intros H.
  destruct c as [[] [] [] [] [] [] [] []]; destruct st; cbn in H |- *;
    try reflexivity;
    (destruct H as [H | H]; [discriminate|]);
    rewrite (lower_from_pending _ z H); reflexivity.
Qed.

Lemma lower_step_safe (st : pending) (c : ascii) (z : string) :
  snd (lower_step st c) = Idle \/ safe_head z = true ->
  st = Idle \/ safe_head (fst (lower_step st c) ++ z) = true.
Proof.
  intros H.
  destruct st; [now left | right..];
    destruct c as [[] [] [] [] [] [] [] []]; cbn in H |- *;
    try reflexivity; (destruct H as [H | H]; [discriminate | exact H]).
Qed.

Lemma lower_from_stable (s : string) (st : pending) (o : string) :
  (forall z, st = Idle \/ safe_head z = true ->
     lower_from Idle (o ++ z) = (o ++ lower_from Idle z)%string) ->
  lower_from Idle (o ++ lower_from st s) = (o ++ lower_from st s)%string.
Proof.
  revert st o. induction s as [|c s IH]; intros st o Inv.
  - cbn [lower_from]. rewrite Inv by (destruct st; auto).
    now destruct st.
  - cbn [lower_from]. rewrite <- append_assoc. apply IH.
    intros z Hz. rewrite !append_assoc.
    rewrite Inv by now apply lower_step_safe.
    now rewrite lower_step_closed.
Qed.

Lemma toLowerCase_idempotent (s : string) :
  toLowerCase (toLowerCase s) = toLowerCase s.
Proof.
  unfold toLowerCase.
  apply (lower_from_stable s Idle EmptyString). reflexivity.
Qed.

(** X18.  [normalizeColor] does not see the letter case of its input,
    and no entry of [COLOR_MAP] is shadowed by an earlier one: each of
    the fourteen keys, given alone, is mapped to its own color. *)
Theorem normalizeColor_table_reachable (raw : string) :
  normalizeColor (toLowerCase raw) = normalizeColor raw /\
  Forall (fun entry => normalizeColor (fst entry) = snd entry) COLOR_MAP.
Proof.
  split.
  - unfold normalizeColor. now rewrite toLowerCase_idempotent.
  - repeat constructor.
Qed.
